(** * VMT_Columns: reconciling the columns of two tabular exports

    Shallow embedding of [src/VMT_Columns.py].

    The script loads two tables with pandas, rebuilds the second one on
    the column layout of the first and strips the [.N] suffixes from the
    resulting headers.  What [standardize_data] computes between the two
    reads and the save is a function of the two frames, also called
    [standardize_data] here; the script around it ([read_file],
    [save_file], the handlers and the printed lines) is in module
    [Script], where pandas' readers and writers are parameters.

    Conventions.
    - A column name is a Python [str]; it is modelled by a [string] of
      code points below 256.  On that range the class [\d] of Python's
      [re] module is exactly the ten characters [0] to [9].
    - A cell is opaque; [NaN] is the missing value pandas fills in when
      it aligns a series on a longer index.
    - A frame carries the default [RangeIndex]; a series is the list of
      its values under that index.
    - A frame may carry one label on several columns, and the
      operations of pandas are modelled on such frames too.  The frames
      [standardize_data] is given are those [read_file] returns:
      pandas' readers rename a repeated header [B] to [B.1], [B.2],
      ..., so the labels of such a frame are pairwise distinct.  A
      statement about the frames the script receives has [NoDup] of the
      labels as a hypothesis.

    The pandas operations the script relies on ([df[key]],
    [df[key] = value], the alignment of a series on the index of the
    frame) are written out in module [Pd]. *)

From stdpp Require Import base list strings gmap.
From Stdlib Require Import Ascii DecimalString.
From Stdlib Require DecimalNat.


(** ** Exceptions and the error monad *)

Inductive exn : Type :=
| KeyError (key : string)
| IndexError
| ValueError.

Inductive result (A : Type) : Type :=
| Ok (a : A)
| Raise (e : exn).
Arguments Ok {A} a.
Arguments Raise {A} e.

#[global] Instance result_bind : MBind result := λ A B k r,
  match r with
  | Ok a => k a
  | Raise e => Raise e
  end.

(** [for x in xs: acc = body(acc, x)], stopping at the first exception. *)
Fixpoint for_each {A S} (body : S → A → result S) (xs : list A) (acc : S)
  : result S :=
  match xs with
  | [] => Ok acc
  | x :: xs' => acc' ← body acc x; for_each body xs' acc'
  end.

(** ** The pattern [\.\d+$] and [re.sub] *)

Module Re.

Definition LF : ascii := "010"%char.

(** [\d] *)
Definition is_digit (c : ascii) : bool :=
  let n := nat_of_ascii c in (48 <=? n)%nat && (n <=? 57)%nat.

(** [$] without [re.MULTILINE]: the end of the string, or just before
    a line feed that is the last character of the string. *)
Definition at_dollar (rest : string) : bool :=
  match rest with
  | EmptyString => true
  | String c EmptyString => Ascii.eqb c LF
  | _ => false
  end.

(** [\d*$], greedy with backtracking: take one more digit when the
    remainder still matches, otherwise try [$] at this position.  The
    result is the number of characters consumed. *)
Fixpoint digits_dollar (s : string) : option nat :=
  let here := if at_dollar s then Some 0 else None in
  match s with
  | EmptyString => here
  | String c s' =>
      if is_digit c
      then match digits_dollar s' with
           | Some n => Some (S n)
           | None => here
           end
      else here
  end.

(** [\.\d+$] anchored at the head of [s]: length of the match. *)
Definition match_here (s : string) : option nat :=
  match s with
  | String "." (String c s') =>
      if is_digit c
      then match digits_dollar s' with
           | Some n => Some (S (S n))
           | None => None
           end
      else None
  | _ => None
  end.

(** [re.sub(pattern, '', s)]: scan from the left; at a position where
    the pattern matches, drop the match and resume after it; elsewhere
    keep the character.  [skip] counts the characters of the current
    match still to drop. *)
Fixpoint sub_go (skip : nat) (s : string) : string :=
  match s with
  | EmptyString => EmptyString
  | String c s' =>
      match skip with
      | S k => sub_go k s'
      | O =>
          match match_here s with
          | Some (S k) => sub_go k s'
          | _ => String c (sub_go 0 s')
          end
      end
  end.

(** [re.sub(r'\.\d+$', '', col)] *)
Definition sub_numbering (col : string) : string := sub_go 0 col.

(** Does the pattern match somewhere in [s]? ([re.search]) *)
Fixpoint search (s : string) : bool :=
  match s with
  | EmptyString => false
  | String _ s' =>
      match match_here s with
      | Some _ => true
      | None => search s'
      end
  end.

Fixpoint all_digits (s : string) : bool :=
  match s with
  | EmptyString => true
  | String c s' => is_digit c && all_digits s'
  end.

End Re.

(** ** Python values used by the script *)

(** [str(n)] for a non-negative integer. *)
Definition str (n : nat) : string := NilZero.string_of_uint (Nat.to_uint n).

(** An insertion-ordered mapping keyed by strings: a Python [dict], and
    also the columns of the frame under construction, whose labels are
    set one by one.  [assoc_set] is [d[k] = v]: it overwrites in place
    when [k] is present and appends otherwise. *)
Fixpoint assoc_get {V} (d : list (string * V)) (k : string) : option V :=
  match d with
  | [] => None
  | (k', v) :: d' => if decide (k' = k) then Some v else assoc_get d' k
  end.

Fixpoint assoc_set {V} (k : string) (v : V) (d : list (string * V))
  : list (string * V) :=
  match d with
  | [] => [(k, v)]
  | (k', v') :: d' =>
      if decide (k' = k) then (k', v) :: d' else (k', v') :: assoc_set k v d'
  end.

(** [d[k]] *)
Definition dict_getitem {V} (d : list (string * V)) (k : string) : result V :=
  match assoc_get d k with
  | Some v => Ok v
  | None => Raise (KeyError k)
  end.

(** [xs[i]] for [0 <= i] *)
Definition list_getitem {A} (xs : list A) (i : nat) : result A :=
  match xs !! i with
  | Some x => Ok x
  | None => Raise IndexError
  end.

(** [[f(x) for x in xs]] where [f] may raise. *)
Fixpoint comprehension {A B} (f : A → result B) (xs : list A)
  : result (list B) :=
  match xs with
  | [] => Ok []
  | x :: xs' => y ← f x; ys ← comprehension f xs'; Ok (y :: ys)
  end.

(** ** Frames *)

Inductive cell : Type :=
| Value (v : string)
| NaN.

Record DataFrame : Type := mkFrame {
  nrows : nat;                          (* len(df.index) *)
  cols : list (string * list cell)      (* label and values, left to right *)
}.

(** [df.columns.tolist()] *)
Definition labels (df : DataFrame) : list string := (cols df).*1.

(** Every column of a frame has one cell per row. *)
Definition well_formed (df : DataFrame) : Prop :=
  Forall (λ c, length c.2 = nrows df) (cols df).

Module Pd.

(** [pd.DataFrame()] *)
Definition empty_frame : DataFrame := mkFrame 0 [].

(** [pd.Series(dtype='object')]: no index entry, no value. *)
Definition empty_series : list cell := [].

(** What [df[key]] evaluates to: a series when [key] labels a single
    column, the sub-frame of all the columns labelled [key] when it
    labels several. *)
Inductive selection : Type :=
| OneColumn (s : list cell)
| SubFrame (cs : list (string * list cell)).

(** [df[key]] *)
Definition getitem (df : DataFrame) (key : string) : result selection :=
  match filter (λ c, c.1 = key) (cols df) with
  | [] => Raise (KeyError key)
  | [c] => Ok (OneColumn c.2)
  | cs => Ok (SubFrame cs)
  end.

(** [s.reindex(RangeIndex(n))]: the value at each position of the new
    index, [NaN] where the series has none. *)
Definition reindex (n : nat) (s : list cell) : list cell :=
  (λ i, default NaN (s !! i)) <$> seq 0 n.

(** [DataFrame._ensure_valid_index]: a frame without rows adopts the
    index of the first non-empty value assigned to it; the columns it
    already has are filled with [NaN] on that index. *)
Definition ensure_valid_index (df : DataFrame) (s : list cell) : DataFrame :=
  if decide (nrows df = 0 ∧ 0 < length s)
  then mkFrame (length s)
               ((λ c, (c.1, replicate (length s) NaN)) <$> cols df)
  else df.

(** [df[key] = s] for a series [s]: the value is aligned on the index
    of the frame, then stored under [key], in place when the label
    exists and as a new last column otherwise. *)
Definition set_series (df : DataFrame) (key : string) (s : list cell)
  : DataFrame :=
  let df := ensure_valid_index df s in
  let value :=
    if decide (length s = nrows df ∨ nrows df = 0)
    then s
    else reindex (nrows df) s in
  mkFrame (nrows df) (assoc_set key value (cols df)).

(** [df[key] = value] on a frame whose labels are pairwise distinct
    (the frame under construction always is, see
    [build_standardized_NoDup]).  A sub-frame of one column is stored as
    that column; a sub-frame of any other width cannot be stored under
    a single label and raises [ValueError]. *)
Definition setitem (df : DataFrame) (key : string) (value : selection)
  : result DataFrame :=
  match value with
  | OneColumn s => Ok (set_series df key s)
  | SubFrame [c] => Ok (set_series df key c.2)
  | SubFrame _ => Raise ValueError
  end.

End Pd.

(** ** [remove_column_numbering] (lines 38-62) *)

(** [column_mapping] is filled label by label, then every label is
    looked up in it; the data are not touched. *)
Definition remove_column_numbering (df : DataFrame) : result DataFrame :=
  let column_mapping : gmap string string :=
    foldl (λ m col, <[col := Re.sub_numbering col]> m) ∅ (labels df) in
  new_columns ← comprehension
                  (λ col, match column_mapping !! col with
                          | Some new_col => Ok new_col
                          | None => Raise (KeyError col)
                          end)
                  (labels df);
  Ok (mkFrame (nrows df) (zip new_columns (cols df).*2)).

(** ** [standardize_data] (lines 64-141) *)

(** The counting loops (lines 81-83 and 90-92):
    [counts[col] = counts.get(col, 0) + 1] for each [col]. *)
Definition count_columns (columns : list string) : list (string * nat) :=
  foldl (λ counts col, assoc_set col (default 0 (assoc_get counts col) + 1) counts)
        [] columns.

(** The shortage check over [base_column_counts.items()] (lines 95-98):
    [col not in new_column_counts or new_column_counts[col] < count],
    and the triple appended when it holds. *)
Definition is_short (new_column_counts : list (string * nat))
    (item : string * nat) : bool :=
  match assoc_get new_column_counts item.1 with
  | None => true
  | Some n => Nat.ltb n item.2
  end.

Definition find_missing_instances
    (base_column_counts new_column_counts : list (string * nat))
  : list (string * nat * nat) :=
  (λ item, (item.1, item.2, default 0 (assoc_get new_column_counts item.1)))
    <$> filter (λ item, is_short new_column_counts item) base_column_counts.

(** The de-duplication loop with its [processed_columns] set
    (lines 110-116). *)
Definition unique_step (st : list string * gset string) (col : string)
  : list string * gset string :=
  if decide (col ∈ st.2) then st else (st.1 ++ [col], st.2 ∪ {[col]}).

Definition unique_columns_of (base_columns : list string) : list string :=
  (foldl unique_step ([], ∅) base_columns).1.

(** [f"{col}_{i+1}"] *)
Definition instance_label (col : string) (i : nat) : string :=
  col +:+ "_" +:+ str (i + 1).

(** The body of [for col in unique_columns] (lines 119-138).
    [new_col_instances] is a list of labels, all equal to [col]. *)
Definition process_column (new_df : DataFrame) (new_columns : list string)
    (base_column_counts : list (string * nat))
    (standardized_df : DataFrame) (col : string) : result DataFrame :=
  let new_col_instances := filter (λ c, c = col) new_columns in
  required_count ← dict_getitem base_column_counts col;
  if decide (required_count = 1) then
    match new_col_instances with
    | c0 :: _ =>
        value ← Pd.getitem new_df c0;
        Pd.setitem standardized_df col value
    | [] =>
        Pd.setitem standardized_df col (Pd.OneColumn Pd.empty_series)
    end
  else
    for_each
      (λ standardized_df i,
         if decide (i < length new_col_instances) then
           c ← list_getitem new_col_instances i;
           value ← Pd.getitem new_df c;
           Pd.setitem standardized_df (instance_label col i) value
         else
           Pd.setitem standardized_df (instance_label col i)
                      (Pd.OneColumn Pd.empty_series))
      (seq 0 required_count) standardized_df.

(** The frame built by the main loop from [pd.DataFrame()] (lines
    107-138), before the headers are cleaned. *)
Definition build_standardized (base_columns : list string)
    (new_df : DataFrame) : result DataFrame :=
  for_each (process_column new_df (labels new_df) (count_columns base_columns))
           (unique_columns_of base_columns) Pd.empty_frame.

(** What a run yields: the shortages listed in the warning, and either
    the frame handed to [save_file] or the exception caught by the outer
    [except], in which case nothing is saved. *)
Record outcome : Type := mkOutcome {
  missing_instances : list (string * nat * nat);
  standardized : result DataFrame
}.

Definition standardize_data (base_df new_df : DataFrame) : outcome :=
  let base_columns := labels base_df in
  let base_column_counts := count_columns base_columns in
  let new_columns := labels new_df in
  let new_column_counts := count_columns new_columns in
  mkOutcome
    (find_missing_instances base_column_counts new_column_counts)
    (standardized_df ← build_standardized base_columns new_df;
     remove_column_numbering standardized_df).

(** ** File names: [os.path.splitext] and [str.lower] *)

Module Os.

(** The separators of [os.path]: [/] alone for [posixpath], [\] with
    the alternative [/] for [ntpath]. *)
Record flavour : Type := mkFlavour { sep : ascii; altsep : option ascii }.

Definition posixpath : flavour := mkFlavour "/" None.
Definition ntpath : flavour := mkFlavour "\" (Some "/"%char).

(** [s.rfind(c)]: the highest index of [c] in [s], [-1] when there is
    none.  [i] is the index of the head of [s], [last] the highest index
    found so far. *)
Fixpoint rfind_from (c : ascii) (s : string) (i last : Z) : Z :=
  match s with
  | EmptyString => last
  | String x s' =>
      rfind_from c s' (i + 1) (if Ascii.eqb x c then i else last)
  end.

Definition rfind (c : ascii) (s : string) : Z := rfind_from c s 0 (-1).

(** [p[i:j]] for [0 <= i <= j] *)
Definition slice (p : string) (i j : Z) : string :=
  String.substring (Z.to_nat i) (Z.to_nat (j - i)) p.

(** The loop of [genericpath._splitext] that skips the leading dots of
    the file name: [indices] are the values [filenameIndex] takes. *)
Fixpoint skip_leading_dots (p : string) (dotIndex : Z) (indices : list Z)
  : option (string * string) :=
  match indices with
  | [] => None
  | filenameIndex :: rest =>
      if String.eqb (slice p filenameIndex (filenameIndex + 1)) "."
      then skip_leading_dots p dotIndex rest
      else Some (slice p 0 dotIndex,
                 slice p dotIndex (Z.of_nat (String.length p)))
  end.

(** [os.path.splitext(p)] *)
Definition splitext (os_path : flavour) (p : string) : string * string :=
  let sepIndex :=
    match altsep os_path with
    | Some a => Z.max (rfind (sep os_path) p) (rfind a p)
    | None => rfind (sep os_path) p
    end in
  let dotIndex := rfind "." p in
  if (sepIndex <? dotIndex)%Z then
    match skip_leading_dots p dotIndex
            (seqZ (sepIndex + 1) (dotIndex - (sepIndex + 1))) with
    | Some root_ext => root_ext
    | None => (p, EmptyString)
    end
  else (p, EmptyString).

(** [str.lower] on code points below 256: the letters [A] to [Z] and
    the upper-case letters of Latin-1 (all of U+00C0 to U+00DE but the
    multiplication sign) move 32 places up. *)
Definition lower_char (c : ascii) : ascii :=
  let n := nat_of_ascii c in
  if ((65 <=? n)%nat && (n <=? 90)%nat)
     || ((192 <=? n)%nat && (n <=? 222)%nat && negb (n =? 215)%nat)
  then ascii_of_nat (n + 32) else c.

Fixpoint lower (s : string) : string :=
  match s with
  | EmptyString => EmptyString
  | String c s' => String (lower_char c) (lower s')
  end.

(** Every character of [s] satisfies [P]. *)
Fixpoint all_chars (P : ascii → bool) (s : string) : bool :=
  match s with
  | EmptyString => true
  | String c s' => P c && all_chars P s'
  end.

Definition is_sep (os_path : flavour) (c : ascii) : bool :=
  Ascii.eqb c (sep os_path)
  || match altsep os_path with
     | Some a => Ascii.eqb c a
     | None => false
     end.

Definition is_dot (c : ascii) : bool := Ascii.eqb c ".".

End Os.

(** ** The script around the reconciliation (lines 5-36, 64-166)

    The pandas readers and writers are parameters: each either returns
    or raises.  An exception is known by what the script asks of it:
    whether it is a [PermissionError], and its text [str(e)].  Only
    instances of [Exception] are considered. *)

Module Script.

Record py_exn : Type := mkExn { is_permission_error : bool; text : string }.

Inductive attempt (A : Type) : Type :=
| Returned (a : A)
| Raised (e : py_exn).
Arguments Returned {A} a.
Arguments Raised {A} e.

(** [needle in hay] *)
Fixpoint contains (needle hay : string) : bool :=
  String.prefix needle hay
  || match hay with
     | EmptyString => false
     | String _ hay' => contains needle hay'
     end.

(** [ValueError(f"Unsupported file format: {file_extension}. ...")] *)
Definition unsupported (file_extension : string) : py_exn :=
  mkExn false ("Unsupported file format: " +:+ file_extension
               +:+ ". Please use .csv or .xlsx files.").

(** What a run leaves behind: the lines printed, in order, and the frame
    written to a path when [save_file] returned. *)
Record run : Type := mkRun {
  printed : list string;
  saved : option (string * DataFrame)
}.

(** Lines 100-104 *)
Definition warning_lines (missing : list (string * nat * nat)) : list string :=
  match missing with
  | [] => []
  | _ =>
      ["WARNING: The following columns have insufficient instances in the new file:"]
      ++ ((λ m : string * nat * nat,
             "- " +:+ m.1.1 +:+ ": Required " +:+ str m.1.2
             +:+ " instances, found " +:+ str m.2 +:+ " instances") <$> missing)
      ++ [String Re.LF "Empty columns will be added for missing instances."]
  end.

(** Lines 146-149 *)
Definition success_lines (new_file : string) : list string :=
  ["File " +:+ new_file +:+ " has been standardized successfully!";
   "Column instances preserved as per original data.";
   "Missing columns added with empty values.";
   "Trailing decimal numbers removed from column names."].

(** Lines 151-156 *)
Definition locked_lines (new_file : string) : list string :=
  [String Re.LF ("ERROR: Could not save the file '" +:+ new_file +:+ "'.");
   "Please make sure that:";
   "1. The file is not currently open in Excel";
   "2. You have write permissions for the file";
   "3. The file is not set to read-only";
   String Re.LF "Please close the file if it's open and try again."].

(** Lines 160-166: the outer handler, after [out] was printed. *)
Definition handled (e : py_exn) (out : list string) : run :=
  mkRun
    (out ++ ["An error occurred: " +:+ text e]
         ++ (if contains "Permission denied" (text e)
             then [String Re.LF "Please make sure that:";
                   "1. The file is not currently open in Excel";
                   "2. You have write permissions for the file";
                   "3. The file is not set to read-only";
                   String Re.LF "Please close the file if it's open and try again."]
             else []))
    None.

Section Script.
Variable os_path : Os.flavour.
Variable pd_read_csv : string → attempt DataFrame.
Variable pd_read_excel : string → attempt DataFrame.
Variable to_csv : DataFrame → string → attempt unit.
Variable to_excel : DataFrame → string → attempt unit.
(** [str(e)] for an exception raised by the reconciliation itself. *)
Variable describe : exn → string.

(** Lines 14, 30 *)
Definition file_extension_of (file_path : string) : string :=
  Os.lower (Os.splitext os_path file_path).2.

(** [read_file] (lines 5-20) *)
Definition read_file (file_path : string) : attempt DataFrame :=
  let file_extension := file_extension_of file_path in
  if decide (file_extension = ".csv") then pd_read_csv file_path
  else if decide (file_extension = ".xlsx") then pd_read_excel file_path
  else Raised (unsupported file_extension).

(** [save_file] (lines 22-36) *)
Definition save_file (df : DataFrame) (file_path : string) : attempt unit :=
  let file_extension := file_extension_of file_path in
  if decide (file_extension = ".csv") then to_csv df file_path
  else if decide (file_extension = ".xlsx") then to_excel df file_path
  else Raised (unsupported file_extension).

(** [standardize_data(base_file, new_file)] with its two [try] blocks
    (lines 64-166); the reconciliation in between is [standardize_data]
    above. *)
Definition standardize_files (base_file new_file : string) : run :=
  match read_file base_file with
  | Raised e => handled e []
  | Returned base_df =>
      match read_file new_file with
      | Raised e => handled e []
      | Returned new_df =>
          let outcome := standardize_data base_df new_df in
          let out := warning_lines (missing_instances outcome) in
          match standardized outcome with
          | Raise e => handled (mkExn false (describe e)) out
          | Ok standardized_df =>
              match save_file standardized_df new_file with
              | Returned _ =>
                  mkRun (out ++ success_lines new_file)
                        (Some (new_file, standardized_df))
              | Raised e =>
                  if is_permission_error e
                  then mkRun (out ++ locked_lines new_file) None
                  else handled e out
              end
          end
      end
  end.

End Script.
End Script.

(** ** Specification vocabulary *)

(** The string made of a single line feed. *)
Definition newline : string := String Re.LF EmptyString.

(** [col] is [u], a dot, the digits [ds] and [tail], where [tail] is
    empty or is the line feed that ends the name. *)
Definition ends_with_number (col u ds tail : string) : Prop :=
  col = u +:+ "." +:+ ds +:+ tail ∧ ds ≠ EmptyString ∧
  Re.all_digits ds = true ∧ (tail = EmptyString ∨ tail = newline).

(** The result is the name cut at its end by nothing or by a dot
    followed by digits. *)
Definition removes_final_suffix (col : string) : Prop :=
  ∃ sfx, col = Re.sub_numbering col +:+ sfx ∧
    (sfx = EmptyString ∨
     ∃ ds, sfx = "." +:+ ds ∧ ds ≠ EmptyString ∧ Re.all_digits ds = true).

(** The distinct names of a list, each at the place of its first
    occurrence. *)
Fixpoint first_occurrences (l : list string) : list string :=
  match l with
  | [] => []
  | x :: l' => x :: filter (λ y, y ≠ x) (first_occurrences l')
  end.

(** Number of columns of a list that carry the name [c]. *)
Definition occurrences (c : string) (l : list string) : nat :=
  length (filter (λ x, x = c) l).

(** The values of the [i]-th column of [new_df] that is labelled [col],
    or the empty series when there is none. *)
Definition instance_values (new_df : DataFrame) (col : string) (i : nat)
  : list cell :=
  match filter (λ c, c.1 = col) (cols new_df) !! i with
  | Some c => c.2
  | None => Pd.empty_series
  end.

(** The labels a base name with [k] instances is given in the output. *)
Definition expected_labels_of (col : string) (k : nat) : list string :=
  if decide (k = 1) then [col] else instance_label col <$> seq 0 k.

(** The labels of the whole output, base name after base name. *)
Definition expected_labels (base_columns : list string) : list string :=
  concat ((λ col, expected_labels_of col (occurrences col base_columns))
            <$> first_occurrences base_columns).

(** The assignments made for one base name, and for all of them. *)
Definition assignments (new_df : DataFrame) (col : string) (k : nat)
  : list (string * list cell) :=
  if decide (k = 1) then [(col, instance_values new_df col 0)]
  else (λ i, (instance_label col i, instance_values new_df col i)) <$> seq 0 k.

Definition plan (base_columns : list string) (new_df : DataFrame)
  : list (string * list cell) :=
  concat ((λ col, assignments new_df col (occurrences col base_columns))
            <$> first_occurrences base_columns).

Definition apply_assignments (df : DataFrame)
    (todo : list (string * list cell)) : DataFrame :=
  foldl (λ df kv, Pd.set_series df kv.1 kv.2) df todo.

(** No base name labels two columns of the target. *)
Definition unambiguous (base_columns : list string) (new_df : DataFrame)
  : Prop :=
  Forall (λ col, occurrences col (labels new_df) ≤ 1) base_columns.

(** A missing column once aligned on [m] rows. *)
Definition padded (m : nat) (v : list cell) : list cell :=
  match v with
  | [] => replicate m NaN
  | _ => v
  end.

(** The frame with the same data under cleaned labels. *)
Definition renamed (df : DataFrame) : DataFrame :=
  mkFrame (nrows df) ((λ c, (Re.sub_numbering c.1, c.2)) <$> cols df).

(** A character that is neither a digit nor the final line feed stops
    every match that starts before it. *)
Definition blocks (x : ascii) (b : string) : Prop :=
  Re.is_digit x = false ∧ Re.at_dollar (String x b) = false.

(** A value handed to the loop: the empty series or a whole column of
    the target. *)
Definition assignable (new_df : DataFrame) (s : list cell) : Prop :=
  s = [] ∨ ∃ c, c ∈ cols new_df ∧ s = c.2 ∧ length s = nrows new_df.

(** A stored column: missing on every row or a whole column of the
    target. *)
Definition stored (new_df : DataFrame) (m : nat) (v : list cell) : Prop :=
  v = replicate m NaN ∨ ∃ c, c ∈ cols new_df ∧ v = c.2.

(** What the loop maintains on the frame under construction. *)
Definition frame_inv (new_df acc : DataFrame) : Prop :=
  well_formed acc ∧ (nrows acc = 0 ∨ nrows acc = nrows new_df) ∧
  Forall (stored new_df (nrows acc)) (cols acc).*2.

(** The target without the columns whose label is not a base name. *)
Definition drop_foreign (base_columns : list string) (new_df : DataFrame)
  : DataFrame :=
  mkFrame (nrows new_df) (filter (λ c, c.1 ∈ base_columns) (cols new_df)).


(** Every column of the output has one cell per row of the target. *)
Definition keeps_row_count (base_df new_df : DataFrame) : Prop :=
  ∃ out, standardized (standardize_data base_df new_df) = Ok out ∧
         Forall (λ c, length c.2 = nrows new_df) (cols out).

(** A frame given by its row count, labels and plain values. *)
Definition frame_of (n : nat) (cs : list (string * list string)) : DataFrame :=
  mkFrame n ((λ c : string * list string, (c.1, Value <$> c.2)) <$> cs).

(** * Properties *)

(** ** The pattern *)

Section Pattern.
Import Re.

Lemma at_dollar_cases tail :
  at_dollar tail = true ↔ tail = EmptyString ∨ tail = newline.
Proof.
  split.
  - destruct tail as [|c [|d t]]; simpl; intros H; auto; try discriminate.
    apply Ascii.eqb_eq in H. subst c. by right.
  - intros [-> | ->]; reflexivity.
Qed.

Lemma digits_dollar_complete ds tail :
  all_digits ds = true → at_dollar tail = true →
  digits_dollar (ds +:+ tail) = Some (String.length ds).
Proof.
  intros Hds Htail. induction ds as [|c ds IH]; simpl in *.
  - apply at_dollar_cases in Htail as [-> | ->]; reflexivity.
  - apply andb_true_iff in Hds as [Hc Hds].
    rewrite Hc, (IH Hds). reflexivity.
Qed.

Lemma digits_dollar_sound s n :
  digits_dollar s = Some n →
  ∃ ds tail, s = ds +:+ tail ∧ all_digits ds = true ∧
             at_dollar tail = true ∧ n = String.length ds.
Proof.
  revert n. induction s as [|c s IH]; intros n H.
  - simpl in H. inversion H. by exists EmptyString, EmptyString.
  - assert (Hhere : (if at_dollar (String c s) then Some 0 else None) = Some n →
                    ∃ ds tail, String c s = ds +:+ tail ∧ all_digits ds = true ∧
                               at_dollar tail = true ∧ n = String.length ds).
    { destruct (at_dollar (String c s)) eqn:E; [|discriminate].
      intros [= <-]. by exists EmptyString, (String c s). }
    simpl in H. destruct (is_digit c) eqn:Hc; [|by apply Hhere].
    destruct (digits_dollar s) as [m|] eqn:Hm; [|by apply Hhere].
    inversion H; subst n.
    destruct (IH m eq_refl) as (ds & tail & -> & Hds & Htail & ->).
    exists (String c ds), tail. simpl. by rewrite Hc, Hds.
Qed.

Lemma match_here_complete ds tail :
  ds ≠ EmptyString → all_digits ds = true → at_dollar tail = true →
  match_here ("." +:+ ds +:+ tail) = Some (S (String.length ds)).
Proof.
  intros Hne Hds Htail. destruct ds as [|c ds]; [done|].
  simpl in *. apply andb_true_iff in Hds as [Hc Hds].
  by rewrite Hc, (digits_dollar_complete ds tail Hds Htail).
Qed.

Lemma match_here_sound s n :
  match_here s = Some n →
  ∃ ds tail, s = "." +:+ ds +:+ tail ∧ ds ≠ EmptyString ∧
             all_digits ds = true ∧ at_dollar tail = true ∧
             n = S (String.length ds).
Proof.
  unfold match_here. intros H.
  destruct s as [|d [|c s]]; try discriminate.
  - destruct d as [[] [] [] [] [] [] [] []]; discriminate.
  - destruct (decide (d = "."%char)) as [->|Hd].
    + destruct (is_digit c) eqn:Hc; [|discriminate].
      destruct (digits_dollar s) as [m|] eqn:Hm; [|discriminate].
      inversion H; subst n.
      destruct (digits_dollar_sound s m Hm) as (ds & tail & -> & Hds & Htail & ->).
      exists (String c ds), tail. simpl. rewrite Hc, Hds. done.
    + destruct d as [[] [] [] [] [] [] [] []]; try discriminate. by destruct Hd.
Qed.

Lemma digits_dollar_blocked a x b :
  blocks x b → digits_dollar (a +:+ String x b) = None.
Proof.
  intros [Hx Hb]. induction a as [|c a IH].
  - simpl. rewrite Hx. simpl in Hb. by rewrite Hb.
  - change (digits_dollar (String c (a +:+ String x b)) = None).
    cbn [digits_dollar]. rewrite IH.
    assert (at_dollar (String c (a +:+ String x b)) = false) as ->
      by (destruct a; reflexivity).
    by destruct (is_digit c).
Qed.

Lemma match_here_blocked c a x b :
  blocks x b → match_here (String c (a +:+ String x b)) = None.
Proof.
  intros Hb. unfold match_here.
  destruct a as [|d a]; simpl.
  - destruct Hb as [-> _]. by destruct c as [[] [] [] [] [] [] [] []].
  - rewrite (digits_dollar_blocked a x b Hb).
    destruct c as [[] [] [] [] [] [] [] []]; try done; by destruct (is_digit d).
Qed.

Lemma blocks_dot b : blocks "."%char b.
Proof. split; [reflexivity | by destruct b]. Qed.

Lemma blocks_underscore b : blocks "_"%char b.
Proof. split; [reflexivity | by destruct b]. Qed.

Lemma sub_go_skip a b : sub_go (String.length a) (a +:+ b) = sub_go 0 b.
Proof. induction a as [|c a IH]; [done | exact IH]. Qed.

Lemma sub_go_blocked_prefix u x b :
  blocks x b → sub_go 0 (u +:+ String x b) = u +:+ sub_go 0 (String x b).
Proof.
  intros Hb. induction u as [|c u IH]; [done|].
  change (sub_go 0 (String c (u +:+ String x b)) =
          String c (u +:+ sub_go 0 (String x b))).
  cbn [sub_go]. rewrite (match_here_blocked c u x b Hb). by rewrite IH.
Qed.

Lemma sub_go_tail tail : at_dollar tail = true → sub_go 0 tail = tail.
Proof. intros [-> | ->]%at_dollar_cases; reflexivity. Qed.

(** The substitution removes the dot and the digits and keeps what
    surrounds them. *)
Lemma sub_numbering_strip u ds tail :
  ds ≠ EmptyString → all_digits ds = true → at_dollar tail = true →
  sub_numbering (u +:+ "." +:+ ds +:+ tail) = u +:+ tail.
Proof.
  intros Hne Hds Htail. unfold sub_numbering.
  change (u +:+ "." +:+ ds +:+ tail) with (u +:+ String "." (ds +:+ tail)).
  rewrite (sub_go_blocked_prefix u "." (ds +:+ tail) (blocks_dot _)).
  f_equal. cbn [sub_go].
  change (String "." (ds +:+ tail)) with ("." +:+ ds +:+ tail).
  rewrite (match_here_complete ds tail Hne Hds Htail).
  rewrite sub_go_skip. by apply sub_go_tail.
Qed.

Lemma search_false_fixed s : search s = false → sub_numbering s = s.
Proof.
  unfold sub_numbering. induction s as [|c s IH]; [done|].
  cbn [search sub_go]. destruct (match_here (String c s)); [done|].
  intros H. by rewrite (IH H).
Qed.

Lemma search_true_split s :
  search s = true → ∃ u ds tail, ends_with_number s u ds tail.
Proof.
  induction s as [|c s IH]; [done|].
  cbn [search]. destruct (match_here (String c s)) as [n|] eqn:Hm.
  - intros _.
    destruct (match_here_sound _ _ Hm) as (ds & tail & E & Hne & Hds & Htail & _).
    exists EmptyString, ds, tail. repeat split; try done.
    by apply at_dollar_cases.
  - intros H. destruct (IH H) as (u & ds & tail & -> & Hrest).
    by exists (String c u), ds, tail.
Qed.

Lemma length_append (a b : string) :
  String.length (a +:+ b) = String.length a + String.length b.
Proof. induction a as [|c a IH]; simpl; [done | by rewrite IH]. Qed.

Lemma ends_with_number_strip col u ds tail :
  ends_with_number col u ds tail → sub_numbering col = u +:+ tail.
Proof.
  intros (-> & Hne & Hds & Htail).
  apply sub_numbering_strip; try done. by apply at_dollar_cases.
Qed.

Lemma search_true_shorter s :
  search s = true → String.length (sub_numbering s) < String.length s.
Proof.
  intros (u & ds & tail & H)%search_true_split.
  rewrite (ends_with_number_strip _ _ _ _ H).
  destruct H as (-> & Hne & _). rewrite !length_append. simpl. lia.
Qed.

Lemma sub_numbering_fixed_iff s : sub_numbering s = s ↔ search s = false.
Proof.
  split; [|apply search_false_fixed].
  intros H. destruct (search s) eqn:E; [|done].
  apply search_true_shorter in E. rewrite H in E. lia.
Qed.

Lemma all_digits_uint d : all_digits (NilEmpty.string_of_uint d) = true.
Proof. induction d; simpl; auto. Qed.

Lemma all_digits_str n : all_digits (str n) = true.
Proof.
  unfold str, NilZero.string_of_uint.
  destruct (Nat.to_uint n) eqn:E; try reflexivity;
    rewrite <- E; apply all_digits_uint.
Qed.

Lemma search_digits ds : all_digits ds = true → search ds = false.
Proof.
  induction ds as [|c ds IH]; [done|]. simpl.
  intros [Hc Hds]%andb_true_iff.
  destruct c as [[] [] [] [] [] [] [] []]; try discriminate; by apply IH.
Qed.

Lemma search_blocked u x b :
  blocks x b → search (u +:+ String x b) = search (String x b).
Proof.
  intros Hb. induction u as [|c u IH]; [done|].
  change (search (String c (u +:+ String x b)) = search (String x b)).
  cbn [search]. by rewrite (match_here_blocked c u x b Hb).
Qed.

(** No generated [_n] suffix is matched by the pattern. *)
Lemma search_instance_label col i : search (instance_label col i) = false.
Proof.
  unfold instance_label.
  change (col +:+ "_" +:+ str (i + 1)) with (col +:+ String "_" (str (i + 1))).
  rewrite (search_blocked col "_" _ (blocks_underscore _)).
  cbn [search match_here]. apply search_digits, all_digits_str.
Qed.
End Pattern.

(** ** Dictionaries, counting and de-duplication *)

Section Dictionaries.
Context {V : Type}.
Implicit Types (d : list (string * V)) (k : string) (v : V).

Lemma assoc_get_set d k k' v :
  assoc_get (assoc_set k v d) k' =
  if decide (k = k') then Some v else assoc_get d k'.
Proof.
  induction d as [|[k0 v0] d IH]; simpl.
  - repeat case_decide; congruence.
  - repeat (case_decide; simpl); try congruence.
Qed.

Lemma assoc_set_keys d k v :
  (assoc_set k v d).*1 = if decide (k ∈ d.*1) then d.*1 else d.*1 ++ [k].
Proof.
  induction d as [|[k0 v0] d IH]; csimpl.
  - destruct (decide (k ∈ [])) as [H|H]; [by apply elem_of_nil in H | done].
  - destruct (decide (k0 = k)) as [->|Hne]; csimpl.
    + rewrite decide_True by left. done.
    + rewrite IH. destruct (decide (k ∈ d.*1)) as [Hin|Hnin].
      * rewrite decide_True by (by right). done.
      * rewrite decide_False; [done|].
        intros [?|?]%elem_of_cons; congruence.
Qed.

Lemma assoc_get_None d k : assoc_get d k = None ↔ k ∉ d.*1.
Proof.
  induction d as [|[k0 v0] d IH]; csimpl.
  - split; [intros _; apply not_elem_of_nil | done].
  - case_decide as E.
    + subst. split; [done | intros H; destruct H; left].
    + rewrite IH, not_elem_of_cons. split; [by split | by intros [_ ?]].
Qed.

Lemma assoc_set_values (P : V → Prop) d k v :
  P v → Forall P d.*2 → Forall P (assoc_set k v d).*2.
Proof.
  intros Hv. induction d as [|[k0 v0] d IH]; csimpl; intros Hd.
  - by constructor.
  - inversion Hd; subst. case_decide; csimpl; constructor; auto.
Qed.
End Dictionaries.

Lemma filter_all {A} (P : A → Prop) `{∀ x, Decision (P x)} (l : list A) :
  (∀ x, P x) → filter P l = l.
Proof.
  intros HP. induction l as [|x l IH]; [done|].
  rewrite filter_cons_True by done. by rewrite IH.
Qed.

Lemma filter_ne_absent (u : list string) (l : list string) (x : string) :
  x ∈ u →
  filter (λ y, y ∉ u) (filter (λ y, y ≠ x) l) = filter (λ y, y ∉ u) l.
Proof.
  intros Hx. rewrite list_filter_filter. apply list_filter_iff.
  intros y. split; [tauto|]. intros Hy. split; [done|]. congruence.
Qed.

Lemma filter_snoc_absent (u : list string) (l : list string) (x : string) :
  filter (λ y, y ∉ u ++ [x]) l = filter (λ y, y ∉ u) (filter (λ y, y ≠ x) l).
Proof.
  rewrite list_filter_filter. apply list_filter_iff.
  intros y. rewrite elem_of_app, list_elem_of_singleton. tauto.
Qed.

Lemma unique_loop l : ∀ (u : list string) (p : gset string),
  (∀ x, x ∈ p ↔ x ∈ u) →
  (foldl unique_step (u, p) l).1 = u ++ filter (λ y, y ∉ u) (first_occurrences l).
Proof.
  induction l as [|x l IH]; intros u p Hp; simpl.
  - by rewrite app_nil_r.
  - unfold unique_step at 2. simpl. destruct (decide (x ∈ p)) as [Hin|Hnin].
    + rewrite (IH u p Hp). apply Hp in Hin.
      rewrite filter_cons_False by tauto.
      by rewrite filter_ne_absent.
    + rewrite IH.
      * assert (x ∉ u) as Hu by (by rewrite <- Hp).
        rewrite filter_cons_True by done.
        rewrite filter_snoc_absent. by rewrite <- app_assoc.
      * intros y. rewrite elem_of_union, elem_of_singleton, elem_of_app,
          list_elem_of_singleton. by rewrite Hp.
Qed.

(** The loop over [processed_columns] keeps the first occurrence of
    every base name. *)
Lemma unique_columns_of_spec l : unique_columns_of l = first_occurrences l.
Proof.
  unfold unique_columns_of. rewrite (unique_loop l [] ∅).
  - simpl. apply filter_all. intros x. apply not_elem_of_nil.
  - intros x. rewrite elem_of_nil. set_solver.
Qed.

Lemma first_occurrences_elem l x : x ∈ first_occurrences l ↔ x ∈ l.
Proof.
  induction l as [|y l IH]; simpl; [done|].
  rewrite !elem_of_cons, list_elem_of_filter, IH.
  destruct (decide (x = y)); tauto.
Qed.

Lemma first_occurrences_NoDup l : NoDup (first_occurrences l).
Proof.
  induction l as [|y l IH]; simpl; constructor.
  - rewrite list_elem_of_filter. by intros [? _].
  - by apply NoDup_filter.
Qed.

Lemma occurrences_cons c x l :
  occurrences c (x :: l) = (if decide (x = c) then 1 else 0) + occurrences c l.
Proof.
  unfold occurrences. destruct (decide (x = c)).
  - by rewrite filter_cons_True.
  - by rewrite filter_cons_False.
Qed.

Lemma occurrences_zero c l : occurrences c l = 0 ↔ c ∉ l.
Proof.
  induction l as [|x l IH]; [by split; [intros _; apply not_elem_of_nil|]|].
  rewrite occurrences_cons, not_elem_of_cons, <- IH.
  destruct (decide (x = c)) as [->|Hne].
  - split; [lia | by intros [? _]].
  - split; [intros H; split; [congruence | lia] | intros [_ H]; lia].
Qed.

Lemma occurrences_pos c l : c ∈ l ↔ 0 < occurrences c l.
Proof.
  destruct (decide (c ∈ l)) as [H|H].
  - split; [|done]. intros _. destruct (occurrences c l) eqn:E; [|lia].
    by apply occurrences_zero in E.
  - split; [done|]. apply occurrences_zero in H. lia.
Qed.

Lemma count_loop l : ∀ (d : list (string * nat)) c,
  assoc_get
    (foldl (λ counts col,
              assoc_set col (default 0 (assoc_get counts col) + 1) counts) d l) c
  = match assoc_get d c with
    | Some n => Some (n + occurrences c l)
    | None => if decide (occurrences c l = 0) then None
              else Some (occurrences c l)
    end.
Proof.
  induction l as [|x l IH]; intros d c; simpl.
  - destruct (assoc_get d c); [f_equal; unfold occurrences; simpl; lia | done].
  - rewrite IH, assoc_get_set, occurrences_cons.
    destruct (decide (x = c)) as [->|Hne].
    + destruct (assoc_get d c); simpl; [f_equal; lia | done].
    + destruct (assoc_get d c); simpl; done.
Qed.

(** The counting loop computes the number of occurrences of each name. *)
Lemma count_columns_get l c :
  assoc_get (count_columns l) c =
  if decide (c ∈ l) then Some (occurrences c l) else None.
Proof.
  unfold count_columns. rewrite count_loop. simpl.
  destruct (decide (c ∈ l)) as [H|H].
  - apply occurrences_pos in H. rewrite decide_False by lia. done.
  - apply occurrences_zero in H. by rewrite decide_True.
Qed.

Lemma count_loop_keys l : ∀ (d : list (string * nat)),
  (foldl (λ counts col,
            assoc_set col (default 0 (assoc_get counts col) + 1) counts) d l).*1
  = d.*1 ++ filter (λ y, y ∉ d.*1) (first_occurrences l).
Proof.
  induction l as [|x l IH]; intros d; simpl.
  - by rewrite app_nil_r.
  - rewrite IH, assoc_set_keys. destruct (decide (x ∈ d.*1)) as [Hin|Hnin].
    + rewrite filter_cons_False by tauto. by rewrite filter_ne_absent.
    + rewrite filter_cons_True by done.
      rewrite filter_snoc_absent. by rewrite <- app_assoc.
Qed.

(** [base_column_counts.items()] lists the names in first-occurrence
    order. *)
Lemma count_columns_keys l : (count_columns l).*1 = first_occurrences l.
Proof.
  unfold count_columns. rewrite count_loop_keys. simpl.
  apply filter_all. intros x. apply not_elem_of_nil.
Qed.

Lemma assoc_get_elem {V} (d : list (string * V)) k v :
  NoDup d.*1 → (k, v) ∈ d ↔ assoc_get d k = Some v.
Proof.
  induction d as [|[k0 v0] d IH]; csimpl; intros Hnd.
  - split; [by intros ?%elem_of_nil | done].
  - apply NoDup_cons in Hnd as [Hk0 Hnd]. rewrite elem_of_cons, (IH Hnd).
    destruct (decide (k0 = k)) as [->|Hne].
    + split; [|intros [= ->]; by left].
      intros [[= ->]|Hget]; [done|].
      exfalso. apply Hk0. apply dec_stable. intros Hn.
      apply assoc_get_None in Hn. congruence.
    + split; [|by right]. intros [[= ? ?]|?]; [congruence | done].
Qed.

(** ** Loops *)

Lemma for_each_total {A S} (body : S → A → result S) (f : S → A → S) xs :
  ∀ acc, (∀ acc x, x ∈ xs → body acc x = Ok (f acc x)) →
         for_each body xs acc = Ok (foldl f acc xs).
Proof.
  induction xs as [|x xs IH]; intros acc Hbody; simpl; [done|].
  rewrite Hbody by left. simpl. apply IH.
  intros acc' y Hy. apply Hbody. by right.
Qed.

Lemma for_each_ext {A S} (body body' : S → A → result S) xs :
  ∀ acc, (∀ acc x, x ∈ xs → body acc x = body' acc x) →
         for_each body xs acc = for_each body' xs acc.
Proof.
  induction xs as [|x xs IH]; intros acc Hbody; simpl; [done|].
  rewrite Hbody by left. destruct (body' acc x) as [acc'|e]; simpl; [|done].
  apply IH. intros acc'' y Hy. apply Hbody. by right.
Qed.

Lemma for_each_raises {A S} (body : S → A → result S) xs x :
  x ∈ xs → (∀ acc, ∃ e, body acc x = Raise e) →
  ∀ acc, ∃ e, for_each body xs acc = Raise e.
Proof.
  intros Hx Hraise. induction xs as [|y xs IH]; intros acc.
  - by apply elem_of_nil in Hx.
  - simpl. apply elem_of_cons in Hx as [<-|Hx].
    + destruct (Hraise acc) as [e ->]. by exists e.
    + destruct (body acc y) as [acc'|e]; simpl; [by apply IH | by exists e].
Qed.

Lemma foldl_concat {A B} (f : A → B → A) (ls : list (list B)) :
  ∀ a, foldl f a (concat ls) = foldl (λ a l, foldl f a l) a ls.
Proof.
  induction ls as [|l ls IH]; intros a; simpl; [done|].
  by rewrite foldl_app, IH.
Qed.

(** ** Selecting and storing columns *)

Lemma filter_labels (df : DataFrame) (col : string) :
  (filter (λ c, c.1 = col) (cols df)).*1 = filter (λ x, x = col) (labels df).
Proof.
  unfold labels. induction (cols df) as [|[k v] cs IH]; [done|]. csimpl.
  destruct (decide (k = col)) as [->|Hne].
  - rewrite !filter_cons_True by done. csimpl. by rewrite IH.
  - rewrite !filter_cons_False by done. done.
Qed.

Lemma selected_length (df : DataFrame) (col : string) :
  length (filter (λ c, c.1 = col) (cols df)) = occurrences col (labels df).
Proof. unfold occurrences. by rewrite <- filter_labels, length_fmap. Qed.

(** With at most one column labelled [col] in the target, every pass of
    the instance loop stores a series: the column when [i] is [0] and
    the column exists, the empty series otherwise. *)
Lemma instance_step (new_df : DataFrame) (col : string) acc key (i : nat) :
  occurrences col (labels new_df) ≤ 1 →
  (if decide (i < length (filter (λ c, c = col) (labels new_df))) then
     c ← list_getitem (filter (λ c, c = col) (labels new_df)) i;
     value ← Pd.getitem new_df c;
     Pd.setitem acc key value
   else Pd.setitem acc key (Pd.OneColumn Pd.empty_series))
  = Ok (Pd.set_series acc key (instance_values new_df col i)).
Proof.
  intros Hone. unfold instance_values.
  pose proof (filter_labels new_df col) as Hlab.
  pose proof (selected_length new_df col) as Hlen.
  destruct (filter (λ c, c.1 = col) (cols new_df)) as [|[k v] [|c2 sel]] eqn:Hsel;
    simpl in Hlen; [| |lia].
  - rewrite <- Hlab. simpl. done.
  - rewrite <- Hlab. csimpl.
    assert (k = col) as ->.
    { assert ((k, v) ∈ filter (λ c, c.1 = col) (cols new_df)) as Hin
        by (rewrite Hsel; left).
      by apply list_elem_of_filter in Hin as [? _]. }
    destruct i as [|i]; simpl.
    + unfold Pd.getitem. rewrite Hsel. done.
    + done.
Qed.

Lemma process_column_plan (new_df : DataFrame) counts acc col k :
  occurrences col (labels new_df) ≤ 1 →
  assoc_get counts col = Some k →
  process_column new_df (labels new_df) counts acc col
  = Ok (apply_assignments acc (assignments new_df col k)).
Proof.
  intros Hone Hk. unfold process_column, dict_getitem. rewrite Hk. simpl.
  unfold assignments, apply_assignments.
  destruct (decide (k = 1)) as [->|Hk1].
  - simpl.
    pose proof (instance_step new_df col acc col 0 Hone) as Hstep.
    destruct (filter (λ c, c = col) (labels new_df)) as [|c0 rest] eqn:Hf.
    + exact Hstep.
    + rewrite decide_True in Hstep by (simpl; lia). exact Hstep.
  - rewrite (for_each_total _
      (λ df i, Pd.set_series df (instance_label col i) (instance_values new_df col i))).
    + f_equal. by rewrite foldl_fmap.
    + intros acc' i _. by apply instance_step.
Qed.

(** ** [remove_column_numbering] only rewrites the labels *)

Lemma comprehension_total {A B} (f : A → result B) (g : A → B) xs :
  (∀ x, x ∈ xs → f x = Ok (g x)) → comprehension f xs = Ok (g <$> xs).
Proof.
  induction xs as [|x xs IH]; intros Hf; simpl; [done|].
  rewrite Hf by left. simpl. rewrite IH; [done|].
  intros y Hy. apply Hf. by right.
Qed.

Lemma column_mapping_lookup (l : list string) : ∀ (m : gmap string string) col,
  foldl (λ m col, <[col := Re.sub_numbering col]> m) m l !! col =
  if decide (col ∈ l) then Some (Re.sub_numbering col) else m !! col.
Proof.
  induction l as [|x l IH]; intros m col; cbn [foldl].
  - rewrite decide_False by apply not_elem_of_nil. done.
  - rewrite IH. destruct (decide (col ∈ l)) as [Hin|Hnin].
    + rewrite decide_True by (by right). done.
    + destruct (decide (x = col)) as [->|Hne].
      * rewrite decide_True by left. by rewrite lookup_insert_eq.
      * rewrite decide_False by (intros [?|?]%elem_of_cons; congruence).
        by rewrite lookup_insert_ne.
Qed.

Lemma zip_renamed (cs : list (string * list cell)) :
  zip (Re.sub_numbering <$> cs.*1) cs.*2
  = (λ c, (Re.sub_numbering c.1, c.2)) <$> cs.
Proof. induction cs as [|[k v] cs IH]; csimpl; [done | by rewrite IH]. Qed.

(** The function never raises: every label it looks up was stored in
    [column_mapping] by the loop just before. *)
Lemma remove_column_numbering_ok df : remove_column_numbering df = Ok (renamed df).
Proof.
  unfold remove_column_numbering.
  rewrite (comprehension_total _ Re.sub_numbering).
  - simpl. unfold renamed, labels. by rewrite zip_renamed.
  - intros col Hcol. rewrite column_mapping_lookup. by rewrite decide_True.
Qed.

(** ** The main loop as a list of assignments *)

Lemma build_standardized_plan base_columns new_df :
  unambiguous base_columns new_df →
  build_standardized base_columns new_df
  = Ok (apply_assignments Pd.empty_frame (plan base_columns new_df)).
Proof.
  intros Hone. unfold build_standardized, plan, apply_assignments.
  rewrite unique_columns_of_spec, foldl_concat, foldl_fmap.
  apply for_each_total. intros acc col Hcol.
  rewrite first_occurrences_elem in Hcol.
  apply process_column_plan; [by apply (proj1 (Forall_forall _ _) Hone)|].
  rewrite count_columns_get. by rewrite decide_True.
Qed.

(** A base name that labels two or more columns of the target stops the
    run: [new_df[col]] is then a sub-frame, which cannot be stored under
    one label. *)
Lemma getitem_ambiguous (new_df : DataFrame) col :
  2 ≤ occurrences col (labels new_df) →
  ∃ cs, Pd.getitem new_df col = Ok (Pd.SubFrame cs) ∧ 2 ≤ length cs.
Proof.
  intros H. rewrite <- selected_length in H. unfold Pd.getitem.
  destruct (filter (λ c, c.1 = col) (cols new_df)) as [|c1 [|c2 cs]] eqn:E;
    simpl in H; try lia.
  exists (c1 :: c2 :: cs). split; [done | simpl; lia].
Qed.

Lemma setitem_wide acc key cs :
  2 ≤ length cs → Pd.setitem acc key (Pd.SubFrame cs) = Raise ValueError.
Proof. destruct cs as [|c1 [|c2 cs]]; simpl; intros; try lia; done. Qed.

Lemma process_column_ambiguous (new_df : DataFrame) counts acc col k :
  2 ≤ occurrences col (labels new_df) →
  assoc_get counts col = Some k → 0 < k →
  process_column new_df (labels new_df) counts acc col = Raise ValueError.
Proof.
  intros Htwo Hk Hpos. unfold process_column, dict_getitem. rewrite Hk. simpl.
  destruct (getitem_ambiguous new_df col Htwo) as (cs & Hget & Hcs).
  assert (∃ rest, filter (λ c, c = col) (labels new_df) = col :: rest
                  ∧ 0 < length (col :: rest)) as (rest & Hf & Hlen).
  { unfold occurrences in Htwo.
    destruct (filter (λ c, c = col) (labels new_df)) as [|c0 rest] eqn:E;
      simpl in Htwo; [lia|].
    assert (c0 ∈ filter (λ c, c = col) (labels new_df)) as Hin
      by (rewrite E; left).
    apply list_elem_of_filter in Hin as [-> _].
    exists rest. split; [done | simpl; lia]. }
  rewrite Hf. destruct cs as [|c1 [|c2 cs]]; simpl in Hcs; try lia.
  destruct (decide (k = 1)) as [->|Hk1].
  - by rewrite Hget.
  - destruct k as [|k]; [lia|]. simpl. by rewrite Hget.
Qed.

Lemma process_column_exn (new_df : DataFrame) base_columns acc col :
  col ∈ base_columns →
  (∃ df, process_column new_df (labels new_df) (count_columns base_columns)
                        acc col = Ok df) ∨
  process_column new_df (labels new_df) (count_columns base_columns) acc col
  = Raise ValueError.
Proof.
  intros Hcol.
  assert (assoc_get (count_columns base_columns) col
          = Some (occurrences col base_columns)) as Hk
    by (rewrite count_columns_get; by rewrite decide_True).
  destruct (decide (occurrences col (labels new_df) ≤ 1)) as [Hone|Htwo].
  - left. eexists. by apply process_column_plan.
  - right. eapply process_column_ambiguous; [lia | done |].
    by apply occurrences_pos.
Qed.

Lemma for_each_exn {A S} (body : S → A → result S) xs e0 :
  (∀ acc x, x ∈ xs → (∃ acc', body acc x = Ok acc') ∨ body acc x = Raise e0) →
  ∀ acc, (∃ r, for_each body xs acc = Ok r) ∨ for_each body xs acc = Raise e0.
Proof.
  induction xs as [|x xs IH]; intros Hbody acc; simpl; [left; by eexists|].
  destruct (Hbody acc x) as [[acc' ->] | ->]; [left| |by right].
  simpl. apply IH. intros acc'' y Hy. apply Hbody. by right.
Qed.

(** The run aborts exactly when a base name is ambiguous in the target,
    and always with [ValueError]. *)
Lemma build_standardized_raises base_columns new_df :
  ¬ unambiguous base_columns new_df ↔
  build_standardized base_columns new_df = Raise ValueError.
Proof.
  split.
  - intros Hamb.
    assert (∃ col, col ∈ base_columns ∧ 2 ≤ occurrences col (labels new_df))
      as (col & Hcol & Htwo).
    { apply not_Forall_Exists in Hamb; [|apply _].
      apply Exists_exists in Hamb as (col & Hcol & Hc).
      exists col. split; [done | simpl in Hc; lia]. }
    unfold build_standardized. rewrite unique_columns_of_spec.
    destruct (for_each_exn
                (process_column new_df (labels new_df) (count_columns base_columns))
                (first_occurrences base_columns) ValueError) with (acc := Pd.empty_frame)
      as [[r Hr] | Hraise]; [| |done].
    + intros acc x Hx. apply process_column_exn.
      by rewrite first_occurrences_elem in Hx.
    + destruct (for_each_raises
                  (process_column new_df (labels new_df) (count_columns base_columns))
                  (first_occurrences base_columns) col) with (acc := Pd.empty_frame)
        as [e He].
      * by rewrite first_occurrences_elem.
      * intros acc. exists ValueError.
        eapply process_column_ambiguous; [done | |by apply occurrences_pos].
        rewrite count_columns_get. by rewrite decide_True.
      * congruence.
  - intros Hraise Hone. rewrite build_standardized_plan in Hraise by done.
    discriminate.
Qed.

(** ** What one assignment does to the frame *)

Lemma fmap_seq_const {A} (f : nat → A) (x : A) m : ∀ a,
  (∀ i, f i = x) → f <$> seq a m = replicate m x.
Proof.
  induction m as [|m IH]; intros a Hf; simpl; [done|].
  by rewrite Hf, IH.
Qed.

Lemma reindex_nil m : Pd.reindex m [] = replicate m NaN.
Proof. unfold Pd.reindex. by apply fmap_seq_const. Qed.

Lemma ensure_valid_index_labels df s :
  labels (Pd.ensure_valid_index df s) = labels df.
Proof.
  unfold Pd.ensure_valid_index, labels. case_decide; [|done]. simpl.
  rewrite <- list_fmap_compose. done.
Qed.

Lemma set_series_labels df key s :
  labels (Pd.set_series df key s)
  = if decide (key ∈ labels df) then labels df else labels df ++ [key].
Proof.
  unfold Pd.set_series, labels at 1. simpl. rewrite assoc_set_keys.
  change ((cols (Pd.ensure_valid_index df s)).*1)
    with (labels (Pd.ensure_valid_index df s)).
  by rewrite ensure_valid_index_labels.
Qed.

Lemma set_series_nrows df key s :
  nrows (Pd.set_series df key s)
  = if decide (nrows df = 0) then length s else nrows df.
Proof.
  unfold Pd.set_series, Pd.ensure_valid_index. simpl.
  repeat case_decide; simpl; lia.
Qed.

Section Assignments.
Variable new_df : DataFrame.
Hypothesis new_wf : well_formed new_df.

Lemma instance_values_assignable col i :
  assignable new_df (instance_values new_df col i).
Proof.
  unfold instance_values, assignable.
  destruct (filter (λ c, c.1 = col) (cols new_df) !! i) as [c|] eqn:E;
    [|by left].
  right. exists c.
  apply list_elem_of_lookup_2, list_elem_of_filter in E as [_ Hin].
  split; [done|]. split; [done|].
  by apply (proj1 (Forall_forall _ _) new_wf).
Qed.

Lemma well_formed_values df :
  well_formed df ↔ Forall (λ v, length v = nrows df) (cols df).*2.
Proof. unfold well_formed. by rewrite Forall_fmap. Qed.

Lemma set_series_inv acc key s :
  frame_inv new_df acc → assignable new_df s → frame_inv new_df (Pd.set_series acc key s).
Proof.
  intros (Hwf & Hrows & Hst) Hs.
  apply well_formed_values in Hwf.
  unfold frame_inv. rewrite well_formed_values.
  unfold Pd.set_series, Pd.ensure_valid_index.
  destruct (decide (nrows acc = 0 ∧ 0 < length s)) as [[Hz Hpos]|Hno]; simpl.
  - destruct Hs as [->|(c & Hc & -> & Hlen)]; [simpl in Hpos; lia|].
    rewrite decide_True by (by left).
    split; [|split; [by right|]].
    + apply assoc_set_values; [done|].
      rewrite <- list_fmap_compose. apply Forall_fmap, Forall_true.
      intros c'. simpl. by rewrite length_replicate.
    + apply assoc_set_values; [right; by exists c|].
      rewrite <- list_fmap_compose. apply Forall_fmap, Forall_true.
      intros c'. by left.
  - assert (length
              (if decide (length s = nrows acc ∨ nrows acc = 0)
               then s else Pd.reindex (nrows acc) s) = nrows acc) as Hlen.
    { case_decide as Hd; [|unfold Pd.reindex; by rewrite length_fmap, length_seq].
      destruct Hd as [?|?]; [done|]. lia. }
    assert (stored new_df (nrows acc)
              (if decide (length s = nrows acc ∨ nrows acc = 0)
               then s else Pd.reindex (nrows acc) s)) as Hval.
    { destruct Hs as [->|(c & Hc & -> & Hl)].
      - left. case_decide as Hd; [|apply reindex_nil].
        simpl in Hd. assert (nrows acc = 0) as -> by (destruct Hd; lia). done.
      - case_decide as Hd; [right; by exists c|].
        destruct Hrows; exfalso; apply Hd; [by right | left; lia]. }
    split; [|split; [done|]]; by apply assoc_set_values.
Qed.

Lemma apply_assignments_inv todo : ∀ acc,
  frame_inv new_df acc → Forall (λ kv, assignable new_df kv.2) todo →
  frame_inv new_df (apply_assignments acc todo).
Proof.
  induction todo as [|kv todo IH]; intros acc Hacc Htodo; [done|].
  inversion Htodo; subst. apply IH; [|done]. by apply set_series_inv.
Qed.

Lemma apply_assignments_nrows todo : ∀ acc,
  Forall (λ kv, assignable new_df kv.2) todo →
  nrows (apply_assignments acc todo)
  = if decide (nrows acc = 0)
    then (if decide (Exists (λ kv, kv.2 ≠ []) todo) then nrows new_df else 0)
    else nrows acc.
Proof.
  induction todo as [|kv todo IH]; intros acc Htodo.
  - simpl. by case_decide.
  - inversion Htodo as [|? ? Hkv Hrest]; subst.
    change (apply_assignments acc (kv :: todo))
      with (apply_assignments (Pd.set_series acc kv.1 kv.2) todo).
    rewrite (IH _ Hrest), set_series_nrows.
    destruct (decide (nrows acc = 0)) as [Hz|Hnz];
      [|by destruct (decide (nrows acc = 0))].
    assert (Exists (λ kv0 : string * list cell, kv0.2 ≠ []) (kv :: todo)
            ↔ kv.2 ≠ [] ∨ Exists (λ kv0 : string * list cell, kv0.2 ≠ []) todo)
      as Hex by apply Exists_cons.
    assert (length kv.2 = 0 ↔ kv.2 = []) as Hlen0
      by (destruct kv.2; simpl; split; intros; (done || lia)).
    assert (kv.2 ≠ [] → length kv.2 = nrows new_df) as Hfull
      by (destruct Hkv as [?|(c & _ & _ & ?)]; done).
    repeat case_decide; try lia; try tauto.
    all: destruct (decide (kv.2 = [])); try tauto; try lia.
Qed.
End Assignments.

(** ** Labels of the frame under construction *)

Lemma for_each_preserves {A S} (P : S → Prop) (body : S → A → result S) xs :
  (∀ acc x acc', P acc → body acc x = Ok acc' → P acc') →
  ∀ acc r, P acc → for_each body xs acc = Ok r → P r.
Proof.
  intros Hbody. induction xs as [|x xs IH]; intros acc r Hacc Hr; simpl in Hr.
  - by inversion Hr; subst.
  - destruct (body acc x) as [acc'|e] eqn:E; simpl in Hr; [|discriminate].
    eapply IH; [|exact Hr]. by eapply Hbody.
Qed.

Lemma set_series_NoDup df key s :
  NoDup (labels df) → NoDup (labels (Pd.set_series df key s)).
Proof.
  intros Hnd. rewrite set_series_labels. case_decide; [done|].
  apply NoDup_app. split; [done|]. split; [|apply NoDup_singleton].
  intros x Hx ->%list_elem_of_singleton. done.
Qed.

Lemma setitem_NoDup df key value df' :
  NoDup (labels df) → Pd.setitem df key value = Ok df' → NoDup (labels df').
Proof.
  intros Hnd. destruct value as [s|[|c [|c2 cs]]]; simpl; intros [= <-];
    by apply set_series_NoDup.
Qed.

Lemma process_column_NoDup new_df new_columns counts acc col acc' :
  NoDup (labels acc) →
  process_column new_df new_columns counts acc col = Ok acc' →
  NoDup (labels acc').
Proof.
  intros Hnd. unfold process_column.
  destruct (dict_getitem counts col) as [k|e]; cbn -[Pd.setitem];
    [|discriminate].
  case_decide.
  - destruct (filter (λ c, c = col) new_columns) as [|c0 rest].
    + by apply setitem_NoDup.
    + destruct (Pd.getitem new_df c0) as [v|e]; cbn -[Pd.setitem];
        [|discriminate].
      by apply setitem_NoDup.
  - apply (for_each_preserves (λ df, NoDup (labels df))); [|done].
    intros df i df' Hdf.
    case_decide; [|by apply setitem_NoDup].
    destruct (list_getitem _ i) as [c|e]; cbn -[Pd.setitem]; [|discriminate].
    destruct (Pd.getitem new_df c) as [v|e]; cbn -[Pd.setitem]; [|discriminate].
    by apply setitem_NoDup.
Qed.

(** Every frame [df[key] = value] is applied to has pairwise distinct
    labels. *)
Lemma build_standardized_NoDup base_columns new_df pre :
  build_standardized base_columns new_df = Ok pre → NoDup (labels pre).
Proof.
  unfold build_standardized.
  apply (for_each_preserves (λ df, NoDup (labels df))); [|constructor].
  intros acc col acc'. apply process_column_NoDup.
Qed.

Lemma apply_assignments_labels_elem todo : ∀ acc x,
  x ∈ labels (apply_assignments acc todo) ↔ x ∈ labels acc ∨ x ∈ todo.*1.
Proof.
  induction todo as [|kv todo IH]; intros acc x; csimpl.
  - rewrite elem_of_nil. tauto.
  - change (apply_assignments acc (kv :: todo))
      with (apply_assignments (Pd.set_series acc kv.1 kv.2) todo).
    rewrite IH, set_series_labels, elem_of_cons.
    destruct (decide (kv.1 ∈ labels acc)) as [Hin|Hnin].
    + split; [tauto|]. intros [?|[->|?]]; tauto.
    + rewrite elem_of_app, list_elem_of_singleton. tauto.
Qed.


Lemma assignments_keys new_df col k :
  (assignments new_df col k).*1 = expected_labels_of col k.
Proof.
  unfold assignments, expected_labels_of. case_decide; [done|].
  rewrite <- list_fmap_compose. done.
Qed.

Lemma fmap_concat_fst {A B} (ls : list (list (A * B))) :
  (concat ls).*1 = concat ((λ l, l.*1) <$> ls).
Proof.
  induction ls as [|l ls IH]; csimpl; [done|]. by rewrite fmap_app, IH.
Qed.

Lemma elem_of_concat {A} (x : A) (ls : list (list A)) :
  x ∈ concat ls ↔ ∃ l, x ∈ l ∧ l ∈ ls.
Proof.
  induction ls as [|l ls IH]; simpl.
  - split; [by intros ?%elem_of_nil | by intros (? & _ & ?%elem_of_nil)].
  - rewrite elem_of_app, IH. split.
    + intros [?|(l' & ? & ?)]; [exists l; split; [done | left]|].
      exists l'. split; [done | by right].
    + intros (l' & Hx & [->|?]%elem_of_cons); [by left|].
      right. by exists l'.
Qed.

Lemma plan_keys base_columns new_df :
  (plan base_columns new_df).*1 = expected_labels base_columns.
Proof.
  unfold plan, expected_labels. rewrite fmap_concat_fst, <- list_fmap_compose.
  f_equal. apply list_fmap_ext. intros _ col _. simpl. apply assignments_keys.
Qed.

Lemma expected_labels_of_length col k : length (expected_labels_of col k) = k.
Proof.
  unfold expected_labels_of. case_decide; [by subst|].
  by rewrite length_fmap, length_seq.
Qed.

Lemma plan_elem base_columns new_df kv :
  kv ∈ plan base_columns new_df →
  ∃ col i, col ∈ base_columns ∧ i < occurrences col base_columns ∧
           kv.1 ∈ expected_labels_of col (occurrences col base_columns) ∧
           kv.2 = instance_values new_df col i.
Proof.
  unfold plan. intros (l & Hkv & Hl)%elem_of_concat.
  apply list_elem_of_fmap in Hl as (col & -> & Hcol).
  rewrite first_occurrences_elem in Hcol.
  assert (kv.1 ∈ (assignments new_df col (occurrences col base_columns)).*1)
    as Hkey by (apply list_elem_of_fmap; by exists kv).
  rewrite assignments_keys in Hkey.
  unfold assignments in Hkv. destruct (decide (_ = 1)) as [H1|H1].
  - apply list_elem_of_singleton in Hkv as ->. exists col, 0.
    repeat split; try done. lia.
  - apply list_elem_of_fmap in Hkv as (i & -> & Hi).
    apply elem_of_seq in Hi. exists col, i. repeat split; try done. lia.
Qed.

Lemma plan_first_instance base_columns new_df col :
  col ∈ base_columns →
  ∃ key, (key, instance_values new_df col 0) ∈ plan base_columns new_df.
Proof.
  intros Hcol. unfold plan.
  assert (0 < occurrences col base_columns) as Hpos by by apply occurrences_pos.
  assert (∃ key, (key, instance_values new_df col 0)
                 ∈ assignments new_df col (occurrences col base_columns))
    as [key Hkey].
  { unfold assignments. case_decide.
    - eexists. by apply list_elem_of_singleton.
    - exists (instance_label col 0). apply list_elem_of_fmap. exists 0.
      split; [done|]. apply elem_of_seq. lia. }
  exists key. apply elem_of_concat. eexists. split; [exact Hkey|].
  apply list_elem_of_fmap. exists col. split; [done|].
  by rewrite first_occurrences_elem.
Qed.

Lemma plan_assignable base_columns new_df :
  well_formed new_df →
  Forall (λ kv, assignable new_df kv.2) (plan base_columns new_df).
Proof.
  intros Hwf. apply Forall_forall. intros kv Hkv.
  destruct (plan_elem _ _ _ Hkv) as (col & i & _ & _ & _ & ->).
  by apply instance_values_assignable.
Qed.

(** Some assignment carries data exactly when the target has rows and
    shares a name with the base. *)
Lemma plan_carries_data base_columns new_df :
  well_formed new_df →
  Exists (λ kv, kv.2 ≠ []) (plan base_columns new_df) ↔
  0 < nrows new_df ∧ ∃ col, col ∈ base_columns ∧ col ∈ labels new_df.
Proof.
  intros Hwf. rewrite Exists_exists. split.
  - intros (kv & Hkv & Hne).
    destruct (plan_elem _ _ _ Hkv) as (col & i & Hcol & _ & _ & Hv).
    rewrite Hv in Hne. unfold instance_values in Hne.
    destruct (filter (λ c, c.1 = col) (cols new_df) !! i) as [c|] eqn:E; [|done].
    apply list_elem_of_lookup_2, list_elem_of_filter in E as [Hc Hin].
    pose proof (proj1 (Forall_forall _ _) Hwf c Hin) as Hlen. simpl in Hlen.
    split.
    + destruct c.2; [done | simpl in Hlen; lia].
    + exists col. split; [done|]. unfold labels. apply list_elem_of_fmap.
      by exists c.
  - intros (Hpos & col & Hcol & Hin).
    destruct (plan_first_instance base_columns new_df col Hcol) as [key Hkey].
    exists (key, instance_values new_df col 0). split; [done|]. simpl.
    unfold labels in Hin. apply list_elem_of_fmap in Hin as (c & -> & Hc).
    unfold instance_values.
    assert (c ∈ filter (λ c0, c0.1 = c.1) (cols new_df)) as Hsel
      by by apply list_elem_of_filter.
    destruct (filter (λ c0, c0.1 = c.1) (cols new_df)) as [|c1 sel] eqn:E;
      [by apply elem_of_nil in Hsel|].
    simpl.
    assert (c1 ∈ cols new_df) as Hc1.
    { assert (c1 ∈ filter (λ c0, c0.1 = c.1) (cols new_df)) as H1
        by (rewrite E; left).
      by apply list_elem_of_filter in H1 as [_ ?]. }
    pose proof (proj1 (Forall_forall _ _) Hwf c1 Hc1) as Hlen. simpl in Hlen.
    intros Hnil. rewrite Hnil in Hlen. simpl in Hlen. lia.
Qed.

(** ** From the loop to the outcome *)

Lemma standardized_of_build base_df new_df pre :
  build_standardized (labels base_df) new_df = Ok pre →
  standardized (standardize_data base_df new_df) = Ok (renamed pre).
Proof.
  intros Hb. unfold standardize_data. simpl. rewrite Hb. simpl.
  apply remove_column_numbering_ok.
Qed.

Lemma build_of_standardized base_df new_df out :
  standardized (standardize_data base_df new_df) = Ok out →
  unambiguous (labels base_df) new_df ∧
  build_standardized (labels base_df) new_df
  = Ok (apply_assignments Pd.empty_frame (plan (labels base_df) new_df)) ∧
  out = renamed (apply_assignments Pd.empty_frame (plan (labels base_df) new_df)).
Proof.
  intros Hout.
  destruct (decide (unambiguous (labels base_df) new_df)) as [Hone|Hamb].
  - pose proof (build_standardized_plan _ _ Hone) as Hb.
    rewrite (standardized_of_build _ _ _ Hb) in Hout. by inversion Hout.
  - apply build_standardized_raises in Hamb.
    unfold standardize_data in Hout. simpl in Hout. rewrite Hamb in Hout.
    discriminate.
Qed.

Lemma renamed_labels df : labels (renamed df) = Re.sub_numbering <$> labels df.
Proof. unfold renamed, labels. simpl. by rewrite <- !list_fmap_compose. Qed.

(** ** The table built from unambiguous, collision-free inputs *)

Lemma assoc_set_fresh {V} (d : list (string * V)) k v :
  k ∉ d.*1 → assoc_set k v d = d ++ [(k, v)].
Proof.
  induction d as [|[k0 v0] d IH]; csimpl; intros Hk; [done|].
  apply not_elem_of_cons in Hk as [Hne Hk].
  rewrite decide_False by done. by rewrite IH.
Qed.

(** Every assignment ends up as one column, in order: the value itself
    when it carries data, a column of missing cells otherwise. *)
Lemma apply_assignments_spec new_df todo :
  NoDup todo.*1 →
  Forall (λ kv, assignable new_df kv.2) todo →
  apply_assignments Pd.empty_frame todo
  = let m := if decide (Exists (λ kv, kv.2 ≠ []) todo)
             then nrows new_df else 0 in
    mkFrame m ((λ kv, (kv.1, padded m kv.2)) <$> todo).
Proof.
  induction todo as [|kv todo IH] using rev_ind; intros Hnd Hall; [done|].
  rewrite fmap_app in Hnd. apply NoDup_app in Hnd as (Hnd & Hfresh & _).
  apply Forall_app in Hall as [Hall Hkv].
  rewrite Forall_singleton in Hkv.
  unfold apply_assignments in *. rewrite foldl_app. simpl.
  rewrite (IH Hnd Hall). clear IH. cbv zeta.
  assert (kv.1 ∉ todo.*1) as Hkey.
  { intros Hin. apply (Hfresh _ Hin). csimpl. left. }
  assert (Exists (λ kv0 : string * list cell, kv0.2 ≠ []) (todo ++ [kv])
          ↔ Exists (λ kv0 : string * list cell, kv0.2 ≠ []) todo ∨ kv.2 ≠ [])
    as Hex by (rewrite Exists_app, Exists_cons, Exists_nil; tauto).
  assert (∀ m, ((λ kv0 : string * list cell, (kv0.1, padded m kv0.2)) <$> todo).*1
               = todo.*1) as Hkeys
    by (intros m; by rewrite <- list_fmap_compose).
  unfold Pd.set_series, Pd.ensure_valid_index. simpl.
  destruct (decide (Exists (λ kv0 : string * list cell, kv0.2 ≠ []) todo))
    as [He|He].
  - (* some earlier assignment carried data *)
    assert (0 < nrows new_df) as Hpos.
    { apply Exists_exists in He as (kv0 & Hin & Hne).
      pose proof (proj1 (Forall_forall _ _) Hall kv0 Hin) as [?|(c & _ & _ & Hl)];
        [done|].
      destruct kv0.2; [done | simpl in Hl; lia]. }
    rewrite (decide_True (P := Exists _ (todo ++ [kv]))) by (apply Hex; by left).
    rewrite decide_False by lia. simpl.
    rewrite assoc_set_fresh by (by rewrite Hkeys).
    rewrite fmap_app. simpl. do 4 f_equal.
    destruct Hkv as [Hnil|(c & _ & _ & Hlen)].
    + rewrite Hnil. simpl. rewrite decide_False by lia. apply reindex_nil.
    + rewrite decide_True by (by left).
      destruct kv.2; [simpl in Hlen; lia | done].
  - (* every earlier assignment was an empty series *)
    assert (Forall (λ kv0 : string * list cell, kv0.2 = []) todo) as Hempty.
    { apply Forall_forall. intros kv0 Hin. apply dec_stable. intros Hne.
      apply He, Exists_exists. by exists kv0. }
    destruct (decide (kv.2 = [])) as [Hnil|Hne].
    + rewrite (decide_False (P := Exists _ (todo ++ [kv]))) by (rewrite Hex; tauto).
      rewrite Hnil. simpl.
      rewrite assoc_set_fresh by (by rewrite Hkeys).
      rewrite fmap_app. simpl. by rewrite Hnil.
    + rewrite (decide_True (P := Exists _ (todo ++ [kv]))) by (apply Hex; by right).
      assert (0 < length kv.2) as Hpos by (destruct kv.2; [done | simpl; lia]).
      assert (length kv.2 = nrows new_df) as Hlen
        by (destruct Hkv as [?|(c & _ & _ & ?)]; done).
      rewrite decide_True by (split; [done | lia]). simpl.
      rewrite decide_True by (by left).
      rewrite assoc_set_fresh
        by (rewrite <- list_fmap_compose; simpl; by rewrite Hkeys).
      rewrite fmap_app, Hlen. simpl. f_equal. f_equal.
      * rewrite <- list_fmap_compose. apply list_fmap_ext. intros i kv0 Hi.
        simpl. apply list_elem_of_lookup_2 in Hi.
        by rewrite (proj1 (Forall_forall _ _) Hempty kv0 Hi).
      * destruct kv.2; done.
Qed.

(** The whole run on such inputs: the planned assignments, column by
    column, under normalized labels. *)
Lemma standardize_data_spec (base_df new_df : DataFrame) :
  well_formed new_df →
  unambiguous (labels base_df) new_df →
  NoDup (expected_labels (labels base_df)) →
  standardized (standardize_data base_df new_df)
  = let m := if decide (Exists (λ kv, kv.2 ≠ []) (plan (labels base_df) new_df))
             then nrows new_df else 0 in
    Ok (mkFrame m ((λ kv, (Re.sub_numbering kv.1, padded m kv.2))
                     <$> plan (labels base_df) new_df)).
Proof.
  intros Hwf Hone Hnd.
  rewrite (standardized_of_build _ _ _ (build_standardized_plan _ _ Hone)).
  rewrite (apply_assignments_spec new_df)
    by (rewrite ?plan_keys; auto using plan_assignable).
  cbv zeta. unfold renamed. simpl. by rewrite <- list_fmap_compose.
Qed.

(** The padding scenario of the specification: three [X] required, one
    present; two columns are missing on every row and the shortage is
    reported. *)
Example padding_scenario :
  standardize_data
    (frame_of 0 [("X", []); ("X", []); ("X", [])]%string)
    (frame_of 2 [("X", ["x1"; "x2"])]%string)
  = mkOutcome [("X"%string, 3, 1)]
      (Ok (mkFrame 2 [("X_1", [Value "x1"; Value "x2"]);
                      ("X_2", [NaN; NaN]); ("X_3", [NaN; NaN])]%string)).
Proof. reflexivity. Qed.

(** A generated label may coincide with a label stored earlier: the
    second assignment then overwrites the first column in place, and the
    table has fewer columns than the base has instances. *)
Example generated_label_collision :
  standardize_data
    (frame_of 0 [("B_1", []); ("B", []); ("B", [])]%string)
    (frame_of 1 [("B_1", ["x"]); ("B", ["b1"])]%string)
  = mkOutcome [("B"%string, 2, 1)]
      (Ok (mkFrame 1 [("B_1", [Value "b1"]); ("B_2", [NaN])]%string)).
Proof. reflexivity. Qed.

(** * The claims *)

(** ** The suffix normalizer *)

Lemma search_spec s :
  Re.search s = false ↔ ∀ u ds tail, ¬ ends_with_number s u ds tail.
Proof.
  split.
  - intros Hs u ds tail H.
    pose proof (ends_with_number_strip _ _ _ _ H) as Hstrip.
    rewrite (search_false_fixed s Hs) in Hstrip.
    destruct H as (E & Hne & _). apply (f_equal String.length) in Hstrip.
    rewrite E, !length_append in Hstrip. simpl in Hstrip. lia.
  - intros Hnone. destruct (Re.search s) eqn:E; [|done].
    destruct (search_true_split s E) as (u & ds & tail & H).
    by destruct (Hnone u ds tail).
Qed.

(** C5, as stated, fails on a name that ends with a line feed: [$] also
    matches just before that line feed, so what is removed is not a
    suffix of the name. *)
Lemma sub_numbering_before_line_feed :
  ¬ removes_final_suffix ("Field.1" +:+ newline).
Proof.
  intros (sfx & H & _). vm_compute in H. by inversion H.
Qed.

(** C5, amended: the normalizer removes the dot and the digits that end
    the name, or that stand just before the line feed ending the name
    (the line feed is kept), once; a name of neither form is returned
    unchanged.  So ["Field.1"] and ["Field.12"] give ["Field"], ["Field"]
    is unchanged and ["Field.1.2"] gives ["Field.1"]. *)
Theorem sub_numbering_spec :
  (∀ col u ds tail,
     ends_with_number col u ds tail → Re.sub_numbering col = u +:+ tail) ∧
  (∀ col,
     (∀ u ds tail, ¬ ends_with_number col u ds tail) →
     Re.sub_numbering col = col) ∧
  Re.sub_numbering "Field.1" = "Field"%string ∧
  Re.sub_numbering "Field.12" = "Field"%string ∧
  Re.sub_numbering "Field" = "Field"%string ∧
  Re.sub_numbering "Field.1.2" = "Field.1"%string.
Proof.
  split; [exact ends_with_number_strip|].
  split; [|by vm_compute].
  intros col Hnone. by apply search_false_fixed, search_spec.
Qed.

Lemma sub_numbering_spec_witness :
  Re.sub_numbering "Field.12" = ("Field" +:+ EmptyString)%string.
Proof.
  apply (proj1 sub_numbering_spec "Field.12" "Field" "12" EmptyString)%string.
  unfold ends_with_number. split; [reflexivity|].
  split; [discriminate|]. split; [reflexivity | by left].
Defined.

(** C6, as stated, fails: a name with two stacked suffixes loses one of
    them at each application. *)
Lemma sub_numbering_not_idempotent :
  Re.sub_numbering (Re.sub_numbering "Field.1.2")
  ≠ Re.sub_numbering "Field.1.2".
Proof. vm_compute. discriminate. Qed.

(** C6, amended: a name in which the pattern matches nowhere is returned
    unchanged, and a second application leaves the result of the first
    unchanged exactly when the pattern no longer matches in that result,
    that is, unless the name carried stacked suffixes such as
    ["Field.1.2"]. *)
Theorem sub_numbering_twice (col : string) :
  (Re.search col = false → Re.sub_numbering col = col) ∧
  (Re.sub_numbering (Re.sub_numbering col) = Re.sub_numbering col
   ↔ Re.search (Re.sub_numbering col) = false).
Proof. split; [apply search_false_fixed | apply sub_numbering_fixed_iff]. Qed.

Lemma sub_numbering_twice_witness :
  Re.sub_numbering "Field" = "Field"%string ∧
  Re.sub_numbering (Re.sub_numbering "Field.1") = Re.sub_numbering "Field.1".
Proof.
  split.
  - apply (proj1 (sub_numbering_twice "Field")). reflexivity.
  - apply (proj2 (sub_numbering_twice "Field.1")). reflexivity.
Defined.

(** ** [remove_column_numbering] *)

(** C8: [remove_column_numbering] returns a frame with as many columns,
    in the same order, with the same cells and the same row count; only
    the labels change, each to its normalized form. *)
Theorem remove_column_numbering_frame (df : DataFrame) :
  ∃ out, remove_column_numbering df = Ok out ∧
         length (cols out) = length (cols df) ∧
         (cols out).*2 = (cols df).*2 ∧
         nrows out = nrows df ∧
         labels out = Re.sub_numbering <$> labels df.
Proof.
  exists (renamed df). split; [apply remove_column_numbering_ok|].
  unfold renamed, labels. simpl.
  rewrite length_fmap, <- !list_fmap_compose. done.
Qed.

(** ** Independence from the data of the base *)

(** C10: the outcome depends on the base only through its sequence of
    column names. *)
Theorem base_values_irrelevant (base1 base2 new_df : DataFrame) :
  labels base1 = labels base2 →
  standardize_data base1 new_df = standardize_data base2 new_df.
Proof. intros Hl. unfold standardize_data. by rewrite Hl. Qed.

Lemma base_values_irrelevant_witness :
  standardize_data (frame_of 1 [("A", ["x"]); ("B", ["y"])]%string)
                   (frame_of 1 [("B", ["b1"]); ("A", ["a1"])]%string)
  = standardize_data (frame_of 2 [("A", ["p"; "q"]); ("B", ["r"; "s"])]%string)
                     (frame_of 1 [("B", ["b1"]); ("A", ["a1"])]%string).
Proof. apply base_values_irrelevant. reflexivity. Defined.

(** ** Shortages *)

Lemma count_columns_get_occ l c :
  assoc_get (count_columns l) c =
  if decide (occurrences c l = 0) then None else Some (occurrences c l).
Proof. unfold count_columns. by rewrite count_loop. Qed.

Lemma count_columns_item base_columns (item : string * nat) :
  item ∈ count_columns base_columns ↔
  item.1 ∈ base_columns ∧ item.2 = occurrences item.1 base_columns.
Proof.
  destruct item as [k v]. simpl.
  rewrite assoc_get_elem
    by (rewrite count_columns_keys; apply first_occurrences_NoDup).
  rewrite count_columns_get. destruct (decide (k ∈ base_columns)).
  - split; [intros [= <-]; done | intros [_ ->]; done].
  - split; [done | tauto].
Qed.

Lemma is_short_spec new_columns (item : string * nat) :
  0 < item.2 →
  is_short (count_columns new_columns) item ↔
  occurrences item.1 new_columns < item.2.
Proof.
  intros Hpos. unfold is_short. rewrite count_columns_get_occ.
  destruct (decide (occurrences item.1 new_columns = 0)) as [Hz|Hnz].
  - split; [intros _; lia | done].
  - rewrite Is_true_true. apply Nat.ltb_lt.
Qed.

(** The shortage list holds exactly the base names that the target has
    fewer times, with the two counts. *)
Lemma missing_instances_spec base_columns new_columns name required actual :
  (name, required, actual)
    ∈ find_missing_instances (count_columns base_columns)
                             (count_columns new_columns)
  ↔ name ∈ base_columns ∧ required = occurrences name base_columns ∧
    actual = occurrences name new_columns ∧ actual < required.
Proof.
  unfold find_missing_instances. rewrite list_elem_of_fmap.
  assert (∀ c, default 0 (assoc_get (count_columns new_columns) c)
               = occurrences c new_columns) as Hdef.
  { intros c. rewrite count_columns_get_occ. case_decide; simpl; lia. }
  split.
  - intros ([k v] & [= -> -> ->] & Hin). simpl in *.
    apply list_elem_of_filter in Hin as [Hshort Hitem].
    apply count_columns_item in Hitem as [Hk Hv]. simpl in *.
    assert (0 < v) as Hpos by (subst v; by apply occurrences_pos).
    apply (is_short_spec new_columns (k, v) Hpos) in Hshort. simpl in Hshort.
    rewrite Hdef. done.
  - intros (Hname & -> & -> & Hlt).
    exists (name, occurrences name base_columns). simpl.
    split; [by rewrite Hdef|].
    apply list_elem_of_filter. split.
    + apply is_short_spec; simpl; [lia | done].
    + by apply count_columns_item.
Qed.

(** ** Columns of the target that the base does not name *)

Lemma drop_foreign_selected base_columns new_df col :
  col ∈ base_columns →
  filter (λ c, c.1 = col) (cols (drop_foreign base_columns new_df))
  = filter (λ c, c.1 = col) (cols new_df).
Proof.
  intros Hcol. unfold drop_foreign. simpl. rewrite list_filter_filter.
  apply list_filter_iff. intros c. split; [tauto|].
  intros Hc. split; [done|]. by rewrite Hc.
Qed.

Lemma selected_head (df : DataFrame) col c rest :
  filter (λ x, x = col) (labels df) = c :: rest → c = col.
Proof.
  intros E.
  assert (c ∈ filter (λ x, x = col) (labels df)) as Hin by (rewrite E; left).
  by apply list_elem_of_filter in Hin as [? _].
Qed.

Lemma getitem_selected (new1 new2 : DataFrame) col :
  filter (λ c, c.1 = col) (cols new1) = filter (λ c, c.1 = col) (cols new2) →
  Pd.getitem new1 col = Pd.getitem new2 col.
Proof. intros H. unfold Pd.getitem. by rewrite H. Qed.

(** The loop body reads the target only through the columns labelled
    with the base name at hand. *)
Lemma process_column_selected (new1 new2 : DataFrame) counts acc col :
  filter (λ c, c.1 = col) (cols new1) = filter (λ c, c.1 = col) (cols new2) →
  process_column new1 (labels new1) counts acc col
  = process_column new2 (labels new2) counts acc col.
Proof.
  intros Hsel.
  assert (filter (λ x, x = col) (labels new1)
          = filter (λ x, x = col) (labels new2)) as Hlab
    by (rewrite <- !filter_labels; by rewrite Hsel).
  unfold process_column. rewrite Hlab.
  destruct (dict_getitem counts col) as [k|e]; simpl; [|done].
  case_decide.
  - destruct (filter (λ x, x = col) (labels new2)) as [|c0 rest] eqn:E; [done|].
    rewrite (selected_head _ _ _ _ E).
    by rewrite (getitem_selected new1 new2 col Hsel).
  - apply for_each_ext. intros acc' i _. case_decide; [|done].
    unfold list_getitem.
    destruct (filter (λ x, x = col) (labels new2) !! i) as [c|] eqn:E; [|done].
    simpl. apply list_elem_of_lookup_2, list_elem_of_filter in E as [-> _].
    by rewrite (getitem_selected new1 new2 col Hsel).
Qed.

Lemma filter_ext_in {A} (P Q : A → Prop)
    `{∀ x, Decision (P x)} `{∀ x, Decision (Q x)} (l : list A) :
  (∀ x, x ∈ l → P x ↔ Q x) → filter P l = filter Q l.
Proof.
  induction l as [|x l IH]; intros Hext; [done|].
  assert (filter P l = filter Q l) as Hl
    by (apply IH; intros y Hy; apply Hext; by right).
  destruct (decide (P x)) as [HP|HP].
  - rewrite !filter_cons_True; [by rewrite Hl | by apply Hext; [left|] | done].
  - rewrite !filter_cons_False; [done | | done].
    intros HQ. apply HP, Hext; [left | done].
Qed.

Lemma find_missing_instances_ext bc (nc1 nc2 : list (string * nat)) :
  (∀ item, item ∈ bc → assoc_get nc1 item.1 = assoc_get nc2 item.1) →
  find_missing_instances bc nc1 = find_missing_instances bc nc2.
Proof.
  intros Hext. unfold find_missing_instances.
  rewrite (filter_ext_in (λ item, is_short nc1 item) (λ item, is_short nc2 item)).
  - apply list_fmap_ext. intros i item Hi.
    apply list_elem_of_lookup_2, list_elem_of_filter in Hi as [_ Hin].
    by rewrite (Hext item Hin).
  - intros item Hin. unfold is_short. by rewrite (Hext item Hin).
Qed.

(** C9: a target column whose name is not a base name plays no part:
    the run on the target and the run on the target without these
    columns give the same shortages and the same table (or the same
    exception), and no shortage is listed for a name outside the base. *)
Theorem foreign_columns_dropped (base_df new_df : DataFrame) :
  standardize_data base_df new_df
  = standardize_data base_df (drop_foreign (labels base_df) new_df) ∧
  ∀ name required actual,
    (name, required, actual) ∈ missing_instances (standardize_data base_df new_df) →
    name ∈ labels base_df.
Proof.
  split.
  - unfold standardize_data. f_equal.
    + apply find_missing_instances_ext. intros item Hitem.
      apply count_columns_item in Hitem as [Hin _].
      rewrite !count_columns_get_occ. unfold occurrences.
      rewrite <- !filter_labels. by rewrite drop_foreign_selected.
    + f_equal. unfold build_standardized. apply for_each_ext.
      intros acc col Hcol.
      rewrite unique_columns_of_spec, first_occurrences_elem in Hcol.
      apply process_column_selected. by rewrite drop_foreign_selected.
  - intros name required actual Hin. simpl in Hin.
    by apply missing_instances_spec in Hin as [? _].
Qed.

(** ** Layout of the output *)


(** ** Row count of the output *)

(** C3, as stated, fails: when no base name occurs in the target, the
    only values ever stored are empty series and the output has no row,
    whatever the number of rows of the target. *)
Lemma no_shared_name_no_row :
  ¬ keeps_row_count (frame_of 0 [("A", [])]%string)
                    (frame_of 1 [("X", ["x1"])]%string).
Proof.
  intros (out & Hout & Hrows). vm_compute in Hout. inversion Hout; subst out.
  apply Forall_cons in Hrows as [Hlen _]. simpl in Hlen. discriminate.
Qed.

(** C3, amended: when no base name labels two columns of the target,
    every column of the output has the same number of cells, and is
    either a whole column of the target or missing on every row.  That
    number is the row count of the target as soon as one base name
    occurs in the target, also when the first base names processed are
    absent from it; it is zero when no base name occurs in the
    target. *)
Theorem output_rows (base_df new_df : DataFrame) :
  well_formed new_df →
  unambiguous (labels base_df) new_df →
  ∃ out, standardized (standardize_data base_df new_df) = Ok out ∧
         well_formed out ∧
         Forall (stored new_df (nrows out)) (cols out).*2 ∧
         ((∃ col, col ∈ labels base_df ∧ col ∈ labels new_df) →
          nrows out = nrows new_df) ∧
         ((¬ ∃ col, col ∈ labels base_df ∧ col ∈ labels new_df) →
          nrows out = 0).
Proof.
  intros Hwf Hone.
  pose proof (build_standardized_plan _ _ Hone) as Hb.
  eexists. split; [by apply standardized_of_build|].
  pose proof (plan_assignable (labels base_df) new_df Hwf) as Hplan.
  destruct (apply_assignments_inv new_df (plan (labels base_df) new_df)
              Pd.empty_frame) as (Hwf' & _ & Hst); [|done|].
  { split; [constructor|]. split; [by left | constructor]. }
  pose proof (apply_assignments_nrows new_df (plan (labels base_df) new_df)
                Pd.empty_frame Hplan) as Hn.
  simpl in Hn.
  pose proof (plan_carries_data (labels base_df) new_df Hwf) as Hdata.
  split; [|split; [|split]].
  - apply well_formed_values. unfold renamed. simpl.
    rewrite <- list_fmap_compose. by apply well_formed_values in Hwf'.
  - unfold renamed. simpl. rewrite <- list_fmap_compose. exact Hst.
  - intros Hex. unfold renamed. simpl. rewrite Hn.
    case_decide as He; [done|].
    destruct (decide (0 < nrows new_df)); [|lia].
    exfalso. apply He, Hdata. done.
  - intros Hnone. unfold renamed. simpl. rewrite Hn.
    case_decide as He; [|done].
    apply Hdata in He as [_ Hex]. done.
Qed.

Lemma output_rows_witness :
  ∃ out,
    standardized
      (standardize_data
         (frame_of 0 [("A", []); ("B", []); ("B", [])]%string)
         (frame_of 2 [("Z", ["z1"; "z2"]); ("B", ["b1"; "b2"])]%string)) = Ok out ∧
    nrows out = 2.
Proof.
  destruct (output_rows
              (frame_of 0 [("A", []); ("B", []); ("B", [])]%string)
              (frame_of 2 [("Z", ["z1"; "z2"]); ("B", ["b1"; "b2"])]%string))
    as (out & Hout & _ & _ & Hn & _).
  - apply (bool_decide_unpack _). by vm_compute.
  - apply (bool_decide_unpack _). by vm_compute.
  - exists out. split; [exact Hout|]. apply Hn.
    exists "B"%string. split; apply (bool_decide_unpack _); by vm_compute.
Defined.

(** ** Names of the output columns *)

Lemma expected_labels_elem base_columns col name :
  col ∈ base_columns →
  name ∈ expected_labels_of col (occurrences col base_columns) →
  name ∈ expected_labels base_columns.
Proof.
  intros Hcol Hname. unfold expected_labels. apply elem_of_concat.
  eexists. split; [exact Hname|]. apply list_elem_of_fmap. exists col.
  split; [done|]. by rewrite first_occurrences_elem.
Qed.

Lemma sub_numbering_instance_label col i :
  Re.sub_numbering (instance_label col i) = instance_label col i.
Proof. apply search_false_fixed, search_instance_label. Qed.

(** C4: in every table the run produces, a base name with one instance
    gives a column under the bare name (then normalized like any label),
    and a base name with [k > 1] instances gives columns labelled
    [name_1] to [name_k]; the normalization leaves each of these labels
    as it is, so they are labels of the final table. *)
Theorem instance_naming (base_df new_df out : DataFrame) :
  standardized (standardize_data base_df new_df) = Ok out →
  ∃ pre, build_standardized (labels base_df) new_df = Ok pre ∧
         out = renamed pre ∧
         ∀ col, col ∈ labels base_df →
           (occurrences col (labels base_df) = 1 →
              col ∈ labels pre ∧ Re.sub_numbering col ∈ labels out) ∧
           (1 < occurrences col (labels base_df) →
              ∀ j, 1 ≤ j ≤ occurrences col (labels base_df) →
                col +:+ "_" +:+ str j ∈ labels pre ∧
                Re.sub_numbering (col +:+ "_" +:+ str j) = col +:+ "_" +:+ str j ∧
                col +:+ "_" +:+ str j ∈ labels out).
Proof.
  intros Hout.
  destruct (build_of_standardized _ _ _ Hout) as (_ & Hb & ->).
  eexists. split; [exact Hb|]. split; [done|].
  assert (∀ name, name ∈ expected_labels (labels base_df) →
                  name ∈ labels (apply_assignments Pd.empty_frame
                                   (plan (labels base_df) new_df))) as Hin.
  { intros name Hname. apply apply_assignments_labels_elem. right.
    by rewrite plan_keys. }
  assert (∀ name, name ∈ labels (apply_assignments Pd.empty_frame
                                   (plan (labels base_df) new_df)) →
                  Re.sub_numbering name
                  ∈ labels (renamed (apply_assignments Pd.empty_frame
                                       (plan (labels base_df) new_df)))) as Hren.
  { intros name Hname. rewrite renamed_labels. apply list_elem_of_fmap.
    by exists name. }
  intros col Hcol. split.
  - intros Hk.
    assert (col ∈ expected_labels (labels base_df)) as Hc.
    { apply (expected_labels_elem _ col _ Hcol). rewrite Hk. left. }
    split; [by apply Hin | by apply Hren, Hin].
  - intros Hk j Hj.
    assert (col +:+ "_" +:+ str j = instance_label col (j - 1)) as ->.
    { unfold instance_label. by replace (j - 1 + 1) with j by lia. }
    assert (instance_label col (j - 1) ∈ expected_labels (labels base_df)) as Hc.
    { apply (expected_labels_elem _ col _ Hcol). unfold expected_labels_of.
      rewrite decide_False by lia. apply list_elem_of_fmap. exists (j - 1).
      split; [done|]. apply elem_of_seq. lia. }
    split; [by apply Hin|]. split; [apply sub_numbering_instance_label|].
    rewrite <- (sub_numbering_instance_label col (j - 1)). by apply Hren, Hin.
Qed.

Lemma instance_naming_witness :
  ∃ pre,
    build_standardized ["A"; "B"; "B"]%string
      (frame_of 1 [("B", ["b1"]); ("A", ["a1"])]%string) = Ok pre ∧
    "B_2"%string ∈ labels pre.
Proof.
  destruct (instance_naming
              (frame_of 0 [("A", []); ("B", []); ("B", [])]%string)
              (frame_of 1 [("B", ["b1"]); ("A", ["a1"])]%string)
              (mkFrame 1 [("A", [Value "a1"]); ("B_1", [Value "b1"]);
                          ("B_2", [NaN])]%string)
              eq_refl) as (pre & Hb & _ & Hnames).
  exists pre. split; [exact Hb|].
  destruct (Hnames "B"%string) as [_ Hmany].
  - apply (bool_decide_unpack _). by vm_compute.
  - refine (proj1 (Hmany _ 2 _)); vm_compute; lia.
Defined.

(** * Further properties of the code *)

(** ** The counting loop and the shortage check *)

Lemma filter_all_in {A} (P : A → Prop) `{∀ x, Decision (P x)} (l : list A) :
  (∀ x, x ∈ l → P x) → filter P l = l.
Proof.
  induction l as [|x l IH]; intros HP; [done|].
  rewrite filter_cons_True by (apply HP; left).
  rewrite IH; [done|]. intros y Hy. apply HP. by right.
Qed.

Lemma assoc_list_canonical {V} (d : list (string * V)) (f : string → V) :
  NoDup d.*1 → (∀ k, k ∈ d.*1 → assoc_get d k = Some (f k)) →
  d = (λ k, (k, f k)) <$> d.*1.
Proof.
  induction d as [|[k v] d IH]; csimpl; intros Hnd Hget; [done|].
  apply NoDup_cons in Hnd as [Hk Hnd].
  assert (v = f k) as ->.
  { specialize (Hget k (list_elem_of_here _ _)). simpl in Hget.
    rewrite decide_True in Hget by done. by inversion Hget. }
  f_equal. apply IH; [done|]. intros k' Hk'.
  specialize (Hget k' (list_elem_of_further _ _ _ Hk')). simpl in Hget.
  rewrite decide_False in Hget by (intros ->; done). done.
Qed.

Lemma count_columns_items columns :
  count_columns columns
  = (λ c, (c, occurrences c columns)) <$> first_occurrences columns.
Proof.
  rewrite <- count_columns_keys. apply assoc_list_canonical.
  - rewrite count_columns_keys. apply first_occurrences_NoDup.
  - intros k Hk. rewrite count_columns_keys, first_occurrences_elem in Hk.
    rewrite count_columns_get. by rewrite decide_True.
Qed.

Lemma count_columns_sum columns :
  sum_list (count_columns columns).*2 = length columns.
Proof.
  unfold count_columns.
  assert (∀ (d : list (string * nat)) k,
            sum_list (assoc_set k (default 0 (assoc_get d k) + 1) d).*2
            = sum_list d.*2 + 1) as Hstep.
  { intros d k. induction d as [|[k0 v0] d IH]; csimpl; [done|].
    destruct (decide (k0 = k)); csimpl; [lia|]. rewrite IH. lia. }
  assert (∀ l (d : list (string * nat)),
            sum_list
              (foldl (λ counts col,
                        assoc_set col (default 0 (assoc_get counts col) + 1)
                                  counts) d l).*2
            = sum_list d.*2 + length l) as Hloop.
  { induction l as [|x l IH]; intros d; simpl; [lia|].
    rewrite IH, Hstep. lia. }
  by rewrite Hloop.
Qed.

(** X1: the counting loop yields one entry per distinct name, in the
    order of first occurrence, holding the number of columns that carry
    the name; a name that labels no column has no entry, and the counts
    add up to the number of columns. *)
Theorem counting_loop (columns : list string) :
  count_columns columns
  = (λ c, (c, occurrences c columns)) <$> unique_columns_of columns ∧
  (∀ c, c ∉ columns → assoc_get (count_columns columns) c = None) ∧
  (∀ c, c ∈ columns →
        assoc_get (count_columns columns) c = Some (occurrences c columns) ∧
        0 < occurrences c columns) ∧
  sum_list (count_columns columns).*2 = length columns.
Proof.
  split; [by rewrite unique_columns_of_spec, count_columns_items|].
  split; [intros c Hc; rewrite count_columns_get; by rewrite decide_False|].
  split.
  - intros c Hc. rewrite count_columns_get. rewrite decide_True by done.
    split; [done | by apply occurrences_pos].
  - apply count_columns_sum.
Qed.

Lemma counting_loop_witness :
  assoc_get (count_columns ["A"; "B"; "A"]%string) "C"%string = None ∧
  assoc_get (count_columns ["A"; "B"; "A"]%string) "A"%string = Some 2.
Proof.
  destruct (counting_loop ["A"; "B"; "A"]%string) as (_ & Habsent & Hpresent & _).
  split.
  - apply Habsent. apply (bool_decide_unpack _). by vm_compute.
  - refine (proj1 (Hpresent "A"%string _)).
    apply (bool_decide_unpack _). by vm_compute.
Defined.

(** X2: the de-duplication loop keeps each base name once, at the place
    of its first occurrence: the result has no repetition and the same
    names as the input, it is the input itself when the input has no
    repetition, and running the loop on its own result changes
    nothing. *)
Theorem dedup_loop (base_columns : list string) :
  unique_columns_of base_columns = first_occurrences base_columns ∧
  NoDup (unique_columns_of base_columns) ∧
  (∀ c, c ∈ unique_columns_of base_columns ↔ c ∈ base_columns) ∧
  (NoDup base_columns → unique_columns_of base_columns = base_columns) ∧
  unique_columns_of (unique_columns_of base_columns)
  = unique_columns_of base_columns.
Proof.
  assert (∀ l : list string, NoDup l → first_occurrences l = l) as Hid.
  { induction l as [|x l IH]; intros Hnd; simpl; [done|].
    apply NoDup_cons in Hnd as [Hx Hnd]. rewrite (IH Hnd). f_equal.
    apply filter_all_in. intros y Hy ->. done. }
  rewrite !unique_columns_of_spec.
  split; [done|]. split; [apply first_occurrences_NoDup|].
  split; [apply first_occurrences_elem|]. split; [apply Hid|].
  apply Hid, first_occurrences_NoDup.
Qed.

Lemma dedup_loop_witness :
  unique_columns_of ["A"; "B"; "C"]%string = ["A"; "B"; "C"]%string.
Proof.
  refine (proj1 (proj2 (proj2 (proj2 (dedup_loop ["A"; "B"; "C"]%string)))) _).
  apply (bool_decide_unpack _). by vm_compute.
Defined.

Lemma filter_fmap_pre {A B} (f : A → B) (P : B → Prop)
    `{∀ y, Decision (P y)} (l : list A) :
  filter P (f <$> l) = f <$> filter (λ x, P (f x)) l.
Proof.
  induction l as [|x l IH]; [done|]. csimpl.
  destruct (decide (P (f x))).
  - rewrite !filter_cons_True by done. csimpl. by rewrite IH.
  - by rewrite !filter_cons_False.
Qed.

Lemma find_missing_instances_list base_columns new_columns (ks : list string) :
  (∀ c, c ∈ ks → 0 < occurrences c base_columns) →
  find_missing_instances ((λ c, (c, occurrences c base_columns)) <$> ks)
                         (count_columns new_columns)
  = (λ c, (c, occurrences c base_columns, occurrences c new_columns))
      <$> filter (λ c, occurrences c new_columns < occurrences c base_columns) ks.
Proof.
  intros Hpos. unfold find_missing_instances.
  rewrite (filter_fmap_pre (λ c, (c, occurrences c base_columns))
             (λ item, is_short (count_columns new_columns) item)).
  rewrite <- list_fmap_compose.
  rewrite (filter_ext_in
             (λ c, is_short (count_columns new_columns)
                            (c, occurrences c base_columns))
             (λ c, occurrences c new_columns < occurrences c base_columns)).
  - apply list_fmap_ext. intros i c _. simpl.
    rewrite count_columns_get_occ. case_decide; simpl; f_equal; lia.
  - intros c Hc. apply is_short_spec. simpl. by apply Hpos.
Qed.

(** X3: the shortage list names, in the order of their first occurrence
    in the base, exactly the base names that label fewer columns in the
    target than in the base, each once, with the count in the base and
    the count in the target (zero when the name is absent); it is empty
    exactly when the target has at least as many columns of every base
    name as the base. *)
Theorem shortage_list (base_df new_df : DataFrame) :
  missing_instances (standardize_data base_df new_df)
  = (λ c, (c, occurrences c (labels base_df), occurrences c (labels new_df)))
      <$> filter (λ c, occurrences c (labels new_df)
                       < occurrences c (labels base_df))
                 (first_occurrences (labels base_df)) ∧
  (missing_instances (standardize_data base_df new_df) = [] ↔
   ∀ c, c ∈ labels base_df →
        occurrences c (labels base_df) ≤ occurrences c (labels new_df)).
Proof.
  assert (missing_instances (standardize_data base_df new_df)
          = (λ c, (c, occurrences c (labels base_df),
                   occurrences c (labels new_df)))
              <$> filter (λ c, occurrences c (labels new_df)
                               < occurrences c (labels base_df))
                         (first_occurrences (labels base_df))) as Hlist.
  { simpl. rewrite (count_columns_items (labels base_df)).
    apply find_missing_instances_list. intros c Hc.
    apply occurrences_pos. by rewrite first_occurrences_elem in Hc. }
  split; [exact Hlist|]. rewrite Hlist. split.
  - intros Hnil c Hc.
    apply fmap_nil_inv in Hnil.
    destruct (decide (occurrences c (labels new_df)
                      < occurrences c (labels base_df))) as [Hlt|Hge]; [|lia].
    assert (c ∈ filter (λ c, occurrences c (labels new_df)
                             < occurrences c (labels base_df))
                       (first_occurrences (labels base_df))) as Hin
      by (apply list_elem_of_filter; by rewrite first_occurrences_elem).
    rewrite Hnil in Hin. by apply elem_of_nil in Hin.
  - intros Hall.
    destruct (filter _ (first_occurrences (labels base_df))) as [|c rest] eqn:E;
      [done|].
    assert (c ∈ filter (λ c, occurrences c (labels new_df)
                             < occurrences c (labels base_df))
                       (first_occurrences (labels base_df))) as Hin
      by (rewrite E; left).
    apply list_elem_of_filter in Hin as [Hlt Hc].
    rewrite first_occurrences_elem in Hc. specialize (Hall c Hc). lia.
Qed.

Lemma shortage_list_witness :
  missing_instances
    (standardize_data (frame_of 0 [("A", []); ("B", []); ("B", [])]%string)
                      (frame_of 1 [("B", ["b1"]); ("B", ["b2"]); ("A", ["a"])]%string))
  = [].
Proof.
  apply (proj2 (shortage_list _ _)). intros c Hc.
  repeat (apply elem_of_cons in Hc as [->|Hc]; [vm_compute; lia|]).
  by apply elem_of_nil in Hc.
Defined.

(** ** When the run aborts *)

(** X4: the reconciliation ends with an exception exactly when some base
    name labels two or more columns of the target, and the exception is
    then [ValueError]; in every other case a table is produced.  In
    particular a table is always produced when the labels of the target
    are pairwise distinct. *)
Theorem abort_condition (base_df new_df : DataFrame) :
  (standardized (standardize_data base_df new_df) = Raise ValueError ↔
   ∃ c, c ∈ labels base_df ∧ 2 ≤ occurrences c (labels new_df)) ∧
  ((∃ out, standardized (standardize_data base_df new_df) = Ok out) ↔
   ∀ c, c ∈ labels base_df → occurrences c (labels new_df) ≤ 1) ∧
  (∀ e, standardized (standardize_data base_df new_df) = Raise e →
        e = ValueError) ∧
  (NoDup (labels new_df) →
   ∃ out, standardized (standardize_data base_df new_df) = Ok out).
Proof.
  assert (unambiguous (labels base_df) new_df ↔
          ∀ c, c ∈ labels base_df → occurrences c (labels new_df) ≤ 1) as Hun
    by apply Forall_forall.
  assert (unambiguous (labels base_df) new_df →
          ∃ out, standardized (standardize_data base_df new_df) = Ok out) as Hok.
  { intros Hone. eexists. apply standardized_of_build.
    by apply build_standardized_plan. }
  assert (¬ unambiguous (labels base_df) new_df →
          standardized (standardize_data base_df new_df) = Raise ValueError)
    as Hraise.
  { intros Hamb. apply build_standardized_raises in Hamb.
    unfold standardize_data. simpl. by rewrite Hamb. }
  split; [|split; [|split]].
  - split.
    + intros Hr.
      destruct (decide (unambiguous (labels base_df) new_df)) as [Hone|Hamb].
      * destruct (Hok Hone) as [out Hout]. congruence.
      * apply not_Forall_Exists in Hamb; [|apply _].
        apply Exists_exists in Hamb as (c & Hc & Hn). exists c.
        split; [done | simpl in Hn; lia].
    + intros (c & Hc & Htwo). apply Hraise. intros Hone.
      pose proof (proj1 Hun Hone c Hc). lia.
  - split.
    + intros [out Hout]. apply Hun.
      by destruct (build_of_standardized _ _ _ Hout) as [? _].
    + intros Hall. by apply Hok, Hun.
  - intros e He.
    destruct (decide (unambiguous (labels base_df) new_df)) as [Hone|Hamb].
    + destruct (Hok Hone) as [out Hout]. congruence.
    + rewrite (Hraise Hamb) in He. by inversion He.
  - intros Hnd. apply Hok, Hun. intros c _.
    unfold occurrences. clear Hok Hraise Hun.
    induction Hnd as [|x l Hx Hnd IH]; [simpl; lia|].
    destruct (decide (x = c)) as [->|Hne].
    + rewrite filter_cons_True by done. simpl.
      assert (filter (λ y, y = c) l = []) as ->; [|simpl; lia].
      destruct (filter (λ y, y = c) l) as [|y rest] eqn:E; [done|].
      assert (y ∈ filter (λ y, y = c) l) as Hy by (rewrite E; left).
      apply list_elem_of_filter in Hy as [-> Hy]. done.
    + by rewrite filter_cons_False.
Qed.

Lemma abort_condition_witness :
  ∃ out,
    standardized
      (standardize_data (frame_of 0 [("A", []); ("B", []); ("B", [])]%string)
                        (frame_of 1 [("B", ["b1"]); ("A", ["a1"])]%string))
    = Ok out.
Proof.
  apply (proj2 (proj2 (proj2 (abort_condition _ _)))).
  apply (bool_decide_unpack _). by vm_compute.
Defined.

(** ** Labels and number of columns of the table *)

Lemma apply_assignments_labels_general todo : ∀ acc,
  labels (apply_assignments acc todo)
  = labels acc ++ filter (λ y, y ∉ labels acc) (first_occurrences todo.*1).
Proof.
  induction todo as [|kv todo IH]; intros acc; csimpl.
  - by rewrite app_nil_r.
  - change (apply_assignments acc (kv :: todo))
      with (apply_assignments (Pd.set_series acc kv.1 kv.2) todo).
    rewrite IH, set_series_labels.
    destruct (decide (kv.1 ∈ labels acc)) as [Hin|Hnin].
    + rewrite filter_cons_False by tauto. by rewrite filter_ne_absent.
    + rewrite filter_cons_True by done.
      rewrite filter_snoc_absent. by rewrite <- app_assoc.
Qed.

Lemma length_concat_fmap {A B} (f : A → list B) (ks : list A) :
  length (concat (f <$> ks)) = sum_list ((λ k, length (f k)) <$> ks).
Proof.
  induction ks as [|k ks IH]; csimpl; [done|]. by rewrite length_app, IH.
Qed.

Lemma expected_labels_length base_columns :
  length (expected_labels base_columns) = length base_columns.
Proof.
  unfold expected_labels. rewrite length_concat_fmap.
  rewrite <- (count_columns_sum base_columns), count_columns_items.
  rewrite <- list_fmap_compose. f_equal. apply list_fmap_ext.
  intros i c _. simpl. apply expected_labels_of_length.
Qed.

Lemma first_occurrences_id (l : list string) :
  NoDup l → first_occurrences l = l.
Proof.
  induction l as [|x l IH]; intros Hnd; simpl; [done|].
  apply NoDup_cons in Hnd as [Hx Hnd]. rewrite (IH Hnd). f_equal.
  apply filter_all_in. intros y Hy ->. done.
Qed.

(** X5: in every table the run produces, the labels before cleaning are
    pairwise distinct and are the generated labels (bare name, or
    [name_1] to [name_k]) in the order they were generated, a label that
    is generated twice keeping its first place; so the table never has
    more columns than the base, and has exactly as many when no
    generated label repeats. *)
Theorem output_labels (base_df new_df out : DataFrame) :
  standardized (standardize_data base_df new_df) = Ok out →
  ∃ pre, build_standardized (labels base_df) new_df = Ok pre ∧
         out = renamed pre ∧
         NoDup (labels pre) ∧
         labels pre = first_occurrences (expected_labels (labels base_df)) ∧
         length (cols out) ≤ length (cols base_df) ∧
         (NoDup (expected_labels (labels base_df)) →
          length (cols out) = length (cols base_df)).
Proof.
  intros Hout.
  destruct (build_of_standardized _ _ _ Hout) as (_ & Hb & ->).
  eexists. split; [exact Hb|]. split; [done|].
  assert (labels (apply_assignments Pd.empty_frame (plan (labels base_df) new_df))
          = first_occurrences (expected_labels (labels base_df))) as Hl.
  { rewrite apply_assignments_labels_general, plan_keys. simpl.
    apply filter_all. intros y. apply not_elem_of_nil. }
  assert (length (cols (renamed (apply_assignments Pd.empty_frame
                                   (plan (labels base_df) new_df))))
          = length (first_occurrences (expected_labels (labels base_df))))
    as Hlen.
  { rewrite <- Hl. unfold renamed, labels. simpl. by rewrite !length_fmap. }
  assert (length (cols base_df) = length (expected_labels (labels base_df)))
    as Hbase
    by (rewrite expected_labels_length; unfold labels; by rewrite length_fmap).
  split; [rewrite Hl; apply first_occurrences_NoDup|]. split; [exact Hl|].
  rewrite Hlen, Hbase. split.
  - apply submseteq_length, NoDup_submseteq; [apply first_occurrences_NoDup|].
    intros x. by rewrite first_occurrences_elem.
  - intros Hnd. by rewrite first_occurrences_id.
Qed.

Lemma output_labels_witness :
  ∃ pre,
    build_standardized ["B_1"; "B"; "B"]%string
      (frame_of 1 [("B", ["b1"])]%string) = Ok pre ∧
    labels pre = first_occurrences ["B_1"; "B_1"; "B_2"]%string.
Proof.
  destruct (output_labels
              (frame_of 0 [("B_1", []); ("B", []); ("B", [])]%string)
              (frame_of 1 [("B", ["b1"])]%string)
              (mkFrame 1 [("B_1", [Value "b1"]); ("B_2", [NaN])]%string)
              eq_refl) as (pre & Hb & _ & _ & Hl & _).
  exists pre. split; [exact Hb | exact Hl].
Defined.

(** ** Frames with pairwise distinct labels *)

Lemma occurrences_NoDup (l : list string) c :
  NoDup l → occurrences c l = if decide (c ∈ l) then 1 else 0.
Proof.
  intros Hnd. induction Hnd as [|x l Hx Hnd IH].
  - rewrite decide_False by apply not_elem_of_nil. done.
  - rewrite occurrences_cons, IH. destruct (decide (x = c)) as [->|Hne].
    + rewrite decide_False by done. rewrite decide_True by left. done.
    + destruct (decide (c ∈ l)).
      * rewrite decide_True by (by right). done.
      * rewrite decide_False; [done|].
        intros [?|?]%elem_of_cons; congruence.
Qed.

Lemma instance_values_first (new_df : DataFrame) col :
  instance_values new_df col 0 = default [] (assoc_get (cols new_df) col).
Proof.
  unfold instance_values.
  induction (cols new_df) as [|[k v] cs IH]; [done|]. simpl.
  destruct (decide (k = col)) as [->|Hne].
  - rewrite filter_cons_True by done. done.
  - rewrite filter_cons_False by done. exact IH.
Qed.

Lemma plan_distinct base_columns new_df :
  NoDup base_columns →
  plan base_columns new_df
  = (λ c, (c, default [] (assoc_get (cols new_df) c))) <$> base_columns.
Proof.
  intros Hnd. unfold plan. rewrite (first_occurrences_id _ Hnd).
  assert (∀ l : list string,
            (∀ c, c ∈ l → occurrences c base_columns = 1) →
            concat ((λ col, assignments new_df col (occurrences col base_columns))
                      <$> l)
            = (λ c, (c, default [] (assoc_get (cols new_df) c))) <$> l) as Hl.
  { induction l as [|x l IH]; intros Hone; [done|]. csimpl.
    rewrite IH by (intros c Hc; apply Hone; by right).
    rewrite (Hone x) by left. unfold assignments. simpl.
    by rewrite instance_values_first. }
  apply Hl. intros c Hc. rewrite (occurrences_NoDup _ _ Hnd).
  by rewrite decide_True.
Qed.

Lemma expected_labels_distinct base_columns :
  NoDup base_columns → expected_labels base_columns = base_columns.
Proof.
  intros Hnd.
  rewrite <- (plan_keys base_columns Pd.empty_frame), plan_distinct by done.
  rewrite <- list_fmap_compose. apply list_fmap_id.
Qed.

Lemma distinct_labels_outcome (base_df new_df : DataFrame) :
  NoDup (labels base_df) → NoDup (labels new_df) → well_formed new_df →
  standardize_data base_df new_df
  = let m := if decide (Exists (λ c, c ∈ labels new_df) (labels base_df))
             then nrows new_df else 0 in
    mkOutcome
      ((λ c, (c, 1, 0)) <$> filter (λ c, c ∉ labels new_df) (labels base_df))
      (Ok (mkFrame m
             ((λ c, (Re.sub_numbering c,
                     padded m (default [] (assoc_get (cols new_df) c))))
                <$> labels base_df))).
Proof.
  intros Hb Hn Hwf. cbv zeta.
  assert (unambiguous (labels base_df) new_df) as Hone.
  { apply Forall_forall. intros c _. rewrite (occurrences_NoDup _ _ Hn).
    case_decide; lia. }
  assert (standardized (standardize_data base_df new_df)
          = Ok (mkFrame
                  (if decide (Exists (λ c, c ∈ labels new_df) (labels base_df))
                   then nrows new_df else 0)
                  ((λ c, (Re.sub_numbering c,
                          padded (if decide (Exists (λ c, c ∈ labels new_df)
                                               (labels base_df))
                                  then nrows new_df else 0)
                                 (default [] (assoc_get (cols new_df) c))))
                     <$> labels base_df))) as Htable.
  { rewrite standardize_data_spec
      by (try done; by rewrite expected_labels_distinct).
    cbv zeta. rewrite plan_distinct by done.
    rewrite <- list_fmap_compose.
    pose proof (plan_carries_data (labels base_df) new_df Hwf) as Hdata.
    rewrite plan_distinct in Hdata by done.
    destruct (decide (Exists (λ c, c ∈ labels new_df) (labels base_df)))
      as [Hex|Hex].
    - destruct (decide (0 < nrows new_df)) as [Hpos|Hzero].
      + rewrite decide_True; [done|]. apply Hdata. split; [done|].
        by apply Exists_exists in Hex.
      + rewrite decide_False by (rewrite Hdata; lia).
        by replace (nrows new_df) with 0 by lia.
    - rewrite decide_False; [done|]. rewrite Hdata. intros [_ (c & ? & ?)].
      apply Hex, Exists_exists. by exists c. }
  assert (missing_instances (standardize_data base_df new_df)
          = (λ c, (c, 1, 0)) <$> filter (λ c, c ∉ labels new_df) (labels base_df))
    as Hmiss.
  { simpl. rewrite (count_columns_items (labels base_df)).
    rewrite find_missing_instances_list
      by (intros c Hc; apply occurrences_pos;
          by rewrite first_occurrences_elem in Hc).
    rewrite (first_occurrences_id _ Hb).
    rewrite (filter_ext_in _ (λ c, c ∉ labels new_df)).
    - apply list_fmap_ext. intros i c Hc.
      apply list_elem_of_lookup_2, list_elem_of_filter in Hc as [Hc Hin].
      rewrite !(occurrences_NoDup _ _ Hb), !(occurrences_NoDup _ _ Hn).
      rewrite decide_True by done. by rewrite decide_False.
    - intros c Hc. rewrite (occurrences_NoDup _ _ Hb), (occurrences_NoDup _ _ Hn).
      rewrite (decide_True (P := c ∈ labels base_df)) by done.
      destruct (decide (c ∈ labels new_df)); split; intros; try lia; done. }
  destruct (standardize_data base_df new_df) as [miss table].
  simpl in Htable, Hmiss. by rewrite Htable, Hmiss.
Qed.

(** X6: when the labels of the base are pairwise distinct and so are
    those of the target (as in frames read by pandas), the run succeeds
    and the table has, for each base label in base order, the target's
    column of that label, or a column of missing cells when the target
    has none, under the normalized label; the shortages are the base
    labels absent from the target, each with counts 1 and 0. *)
Theorem distinct_labels_reconciliation (base_df new_df : DataFrame) :
  NoDup (labels base_df) → NoDup (labels new_df) → well_formed new_df →
  standardize_data base_df new_df
  = let m := if decide (Exists (λ c, c ∈ labels new_df) (labels base_df))
             then nrows new_df else 0 in
    mkOutcome
      ((λ c, (c, 1, 0)) <$> filter (λ c, c ∉ labels new_df) (labels base_df))
      (Ok (mkFrame m
             ((λ c, (Re.sub_numbering c,
                     padded m (default [] (assoc_get (cols new_df) c))))
                <$> labels base_df))).
Proof. apply distinct_labels_outcome. Qed.

Lemma distinct_labels_reconciliation_witness :
  standardize_data
    (frame_of 0 [("A", []); ("B.1", []); ("C", [])]%string)
    (frame_of 1 [("B.1", ["b"]); ("Z", ["z"]); ("A", ["a"])]%string)
  = mkOutcome [("C"%string, 1, 0)]
      (Ok (mkFrame 1 [("A", [Value "a"]); ("B", [Value "b"]);
                      ("C", [NaN])]%string)).
Proof.
  rewrite distinct_labels_reconciliation.
  - reflexivity.
  - apply (bool_decide_unpack _). by vm_compute.
  - apply (bool_decide_unpack _). by vm_compute.
  - apply (bool_decide_unpack _). by vm_compute.
Defined.

(** X7: reconciling a well-formed frame with pairwise distinct labels
    against a base that has the same labels in the same order changes
    nothing but the labels, which are normalized, and reports no
    shortage. *)
Theorem same_layout_unchanged (base_df new_df : DataFrame) :
  labels base_df = labels new_df → NoDup (labels new_df) →
  well_formed new_df → cols new_df ≠ [] →
  standardize_data base_df new_df = mkOutcome [] (Ok (renamed new_df)).
Proof.
  intros Hl Hnd Hwf Hne.
  rewrite distinct_labels_outcome by (try done; by rewrite Hl).
  cbv zeta. rewrite Hl.
  assert (Exists (λ c, c ∈ labels new_df) (labels new_df)) as Hex.
  { unfold labels. destruct (cols new_df) as [|c cs]; [done|].
    apply Exists_cons_hd. left. }
  rewrite decide_True by done.
  rewrite (filter_ext_in _ (λ _, False)) by (intros c Hc; tauto).
  assert (filter (λ _ : string, False) (labels new_df) = []) as ->.
  { generalize (labels new_df). intros l.
    induction l as [|x l IH]; [done|].
    rewrite filter_cons_False; [exact IH | tauto]. }
  csimpl. f_equal. f_equal. unfold renamed. f_equal.
  unfold labels in *. rewrite <- list_fmap_compose.
  apply list_fmap_ext. intros i [k v] Hi. simpl. f_equal.
  assert (assoc_get (cols new_df) k = Some v) as ->.
  { apply assoc_get_elem; [done|]. by apply list_elem_of_lookup_2 in Hi. }
  simpl. apply list_elem_of_lookup_2 in Hi.
  pose proof (proj1 (Forall_forall _ _) Hwf _ Hi) as Hlen. simpl in Hlen.
  destruct v; [simpl in Hlen; by rewrite <- Hlen | done].
Qed.

Lemma same_layout_unchanged_witness :
  standardize_data
    (frame_of 1 [("A", ["old"]); ("B.1", ["old"])]%string)
    (frame_of 2 [("A", ["a1"; "a2"]); ("B.1", ["b1"; "b2"])]%string)
  = mkOutcome []
      (Ok (renamed (frame_of 2 [("A", ["a1"; "a2"]); ("B.1", ["b1"; "b2"])]%string))).
Proof.
  apply same_layout_unchanged.
  - reflexivity.
  - apply (bool_decide_unpack _). by vm_compute.
  - apply (bool_decide_unpack _). by vm_compute.
  - discriminate.
Defined.

(** ** The frames the script receives

    [read_file] returns what pandas' readers return, and these give a
    header that is repeated the labels [B], [B.1], [B.2], ...: the labels
    of the base and of the target are pairwise distinct, and every name
    has one instance. *)



(** C2: a base with the headers [A], [B], [B] and a target with the
    headers [B], [A], [B] and the row [b1], [a1], [b2] are read by pandas
    under the labels [A], [B], [B.1] and [B], [A], [B.1].  On these
    frames, whatever the rows of the base, no shortage is found and the
    table has the columns [A], [B], [B] once the suffixes are stripped,
    with the single row [a1], [b1], [b2]: [A] from the target's [A], the
    first [B] from the target's first [B] column and the second [B] from
    its second one. *)
Theorem scenario_A_B_B (base_df : DataFrame) :
  labels base_df = ["A"; "B"; "B.1"]%string →
  standardize_data base_df
    (frame_of 1 [("B", ["b1"]); ("A", ["a1"]); ("B.1", ["b2"])]%string)
  = mkOutcome []
      (Ok (mkFrame 1 [("A", [Value "a1"]); ("B", [Value "b1"]);
                      ("B", [Value "b2"])]%string)).
Proof. intros Hl. unfold standardize_data. rewrite Hl. reflexivity. Qed.

Lemma scenario_A_B_B_witness :
  standardize_data
    (frame_of 2 [("A", ["x1"; "x2"]); ("B", ["y1"; "y2"]);
                 ("B.1", ["z1"; "z2"])]%string)
    (frame_of 1 [("B", ["b1"]); ("A", ["a1"]); ("B.1", ["b2"])]%string)
  = mkOutcome []
      (Ok (mkFrame 1 [("A", [Value "a1"]); ("B", [Value "b1"]);
                      ("B", [Value "b2"])]%string)).
Proof. apply scenario_A_B_B. reflexivity. Defined.



(** ** Edge cases: no base column, no shared name *)

Lemma set_series_empty acc key :
  nrows acc = 0 →
  Pd.set_series acc key [] = mkFrame 0 (assoc_set key [] (cols acc)).
Proof.
  intros Hz. unfold Pd.set_series, Pd.ensure_valid_index. simpl.
  rewrite decide_False by lia. rewrite decide_True by (left; lia).
  by rewrite Hz.
Qed.

Lemma apply_assignments_all_empty todo : ∀ acc,
  nrows acc = 0 → Forall (λ v, v = []) (cols acc).*2 →
  Forall (λ kv : string * list cell, kv.2 = []) todo →
  nrows (apply_assignments acc todo) = 0 ∧
  Forall (λ v, v = []) (cols (apply_assignments acc todo)).*2.
Proof.
  induction todo as [|kv todo IH]; intros acc Hz Hacc Htodo; [done|].
  inversion Htodo as [|? ? Hkv Hrest]; subst.
  change (apply_assignments acc (kv :: todo))
    with (apply_assignments (Pd.set_series acc kv.1 kv.2) todo).
  rewrite Hkv, set_series_empty by done.
  apply IH; [done| |done]. simpl. by apply assoc_set_values.
Qed.

Lemma all_empty_columns (cs : list (string * list cell)) :
  Forall (λ v, v = []) cs.*2 → cs = (λ l, (l, [])) <$> cs.*1.
Proof.
  induction cs as [|[k v] cs IH]; csimpl; intros H; [done|].
  inversion H; subst. by rewrite <- IH.
Qed.

(** X8: when no base name labels a column of the target (in particular
    when the base or the target has no column), every distinct base name is reported
    short, in base order, with its count in the base and zero found, and
    the table has the generated labels, normalized, over no row at all:
    the rows of the target are not kept. *)
Theorem no_shared_name (base_df new_df : DataFrame) :
  (∀ c, c ∈ labels base_df → c ∉ labels new_df) →
  standardize_data base_df new_df
  = mkOutcome
      ((λ c, (c, occurrences c (labels base_df), 0))
         <$> first_occurrences (labels base_df))
      (Ok (mkFrame 0
             ((λ l, (Re.sub_numbering l, []))
                <$> first_occurrences (expected_labels (labels base_df))))).
Proof.
  intros Hnone.
  assert (∀ c, c ∈ labels base_df → occurrences c (labels new_df) = 0) as Hocc
    by (intros c Hc; by apply occurrences_zero, Hnone).
  assert (missing_instances (standardize_data base_df new_df)
          = (λ c, (c, occurrences c (labels base_df), 0))
              <$> first_occurrences (labels base_df)) as Hmiss.
  { simpl. rewrite (count_columns_items (labels base_df)).
    rewrite find_missing_instances_list
      by (intros c Hc; apply occurrences_pos;
          by rewrite first_occurrences_elem in Hc).
    rewrite filter_all_in.
    - apply list_fmap_ext. intros i c Hc. apply list_elem_of_lookup_2 in Hc.
      rewrite first_occurrences_elem in Hc. by rewrite (Hocc c Hc).
    - intros c Hc. rewrite first_occurrences_elem in Hc.
      rewrite (Hocc c Hc). by apply occurrences_pos. }
  assert (unambiguous (labels base_df) new_df) as Hone.
  { apply Forall_forall. intros c Hc. rewrite (Hocc c Hc). lia. }
  assert (Forall (λ kv : string * list cell, kv.2 = [])
                 (plan (labels base_df) new_df)) as Hplan.
  { apply Forall_forall. intros kv Hkv.
    destruct (plan_elem _ _ _ Hkv) as (col & i & Hcol & _ & _ & ->).
    unfold instance_values.
    assert (filter (λ c, c.1 = col) (cols new_df) = []) as ->; [|done].
    pose proof (selected_length new_df col) as Hlen.
    rewrite (Hocc col Hcol) in Hlen. by destruct (filter _ (cols new_df)). }
  destruct (apply_assignments_all_empty (plan (labels base_df) new_df)
              Pd.empty_frame) as [Hz Hvals]; [done|constructor|done|].
  assert (standardized (standardize_data base_df new_df)
          = Ok (mkFrame 0
                  ((λ l, (Re.sub_numbering l, []))
                     <$> first_occurrences (expected_labels (labels base_df)))))
    as Htable.
  { rewrite (standardized_of_build _ _ _ (build_standardized_plan _ _ Hone)).
    unfold renamed. rewrite Hz. do 2 f_equal.
    rewrite (all_empty_columns _ Hvals), <- list_fmap_compose.
    change (cols (apply_assignments Pd.empty_frame
                    (plan (labels base_df) new_df))).*1
      with (labels (apply_assignments Pd.empty_frame
                      (plan (labels base_df) new_df))).
    rewrite apply_assignments_labels_general, plan_keys. simpl.
    rewrite filter_all by (intros y; apply not_elem_of_nil). done. }
  destruct (standardize_data base_df new_df) as [miss table].
  simpl in Htable, Hmiss. by rewrite Htable, Hmiss.
Qed.

Lemma no_shared_name_witness :
  standardize_data
    (frame_of 0 [("A", []); ("B", []); ("A", [])]%string)
    (frame_of 2 [("X", ["x1"; "x2"])]%string)
  = mkOutcome [("A"%string, 2, 0); ("B"%string, 1, 0)]
      (Ok (mkFrame 0 [("A_1", []); ("A_2", []); ("B", [])]%string)).
Proof.
  rewrite no_shared_name; [reflexivity|].
  intros c Hc Hx. apply list_elem_of_singleton in Hx as ->.
  repeat (apply elem_of_cons in Hc as [Hc|Hc]; [discriminate|]).
  by apply elem_of_nil in Hc.
Defined.

(** ** More on the suffix normalizer *)

Lemma append_nil_l (b : string) : EmptyString +:+ b = b.
Proof. reflexivity. Qed.

Lemma append_cons (x : ascii) (a b : string) :
  String x a +:+ b = String x (a +:+ b).
Proof. reflexivity. Qed.

Lemma append_empty_r (s : string) : s +:+ EmptyString = s.
Proof. induction s as [|c s IH]; [done|]. by rewrite append_cons, IH. Qed.

Lemma append_assoc (a b c : string) : (a +:+ b) +:+ c = a +:+ b +:+ c.
Proof. induction a as [|x a IH]; [done|]. by rewrite !append_cons, IH. Qed.

Lemma append_inj_l (a b c : string) : a +:+ b = a +:+ c → b = c.
Proof.
  induction a as [|x a IH]; [done|]. rewrite !append_cons. intros [= H].
  by apply IH.
Qed.

Lemma str_nonempty n : str n ≠ EmptyString.
Proof.
  unfold str, NilZero.string_of_uint.
  destruct (Nat.to_uint n); simpl; discriminate.
Qed.

Lemma str_inj n m : str n = str m → n = m.
Proof.
  intros H. apply DecimalNat.Unsigned.to_uint_inj.
  assert (∀ k, Nat.to_uint k ≠ Decimal.Nil) as Hnil.
  { intros k Hk. pose proof (DecimalNat.Unsigned.of_to k) as Hof.
    rewrite Hk in Hof. simpl in Hof. subst k. discriminate. }
  apply (f_equal NilZero.uint_of_string) in H. unfold str in H.
  rewrite !NilZero.usu in H by apply Hnil. by inversion H.
Qed.

(** X9: a name followed by a dot and a number written in decimal (the
    suffix [.1], [.2], ... of the docstring) is normalized to the name
    itself, whatever the name. *)
Theorem numbered_suffix_removed (name : string) (n : nat) :
  Re.sub_numbering (name +:+ "." +:+ str n) = name.
Proof.
  pose proof (sub_numbering_strip name (str n) EmptyString (str_nonempty n)
                (all_digits_str n) eq_refl) as H.
  by rewrite !append_empty_r in H.
Qed.

Lemma snoc_inj (a b : string) (c d : ascii) :
  a +:+ String c EmptyString = b +:+ String d EmptyString → c = d.
Proof.
  revert b. induction a as [|x a IH]; intros [|y b];
    rewrite ?append_cons, ?append_nil_l; intros H.
  - by injection H.
  - injection H as _ Ht.
    destruct b; rewrite ?append_cons, ?append_nil_l in Ht; discriminate.
  - injection H as _ Ht.
    destruct a; rewrite ?append_cons, ?append_nil_l in Ht; discriminate.
  - injection H as _ Ht. by eapply IH.
Qed.

Lemma digits_snoc ds :
  ds ≠ EmptyString → Re.all_digits ds = true →
  ∃ ds' d, ds = ds' +:+ String d EmptyString ∧ Re.is_digit d = true.
Proof.
  induction ds as [|c ds IH]; [done|]. intros _ [Hc Hds]%andb_true_iff.
  destruct ds as [|c' ds'].
  - by exists EmptyString, c.
  - destruct IH as (ds0 & d & E & Hd); [done|done|].
    exists (String c ds0), d. rewrite append_cons. by rewrite <- E.
Qed.

(** X10: the normalizer returns unchanged every name that contains no
    dot, and every name whose last character is neither a digit nor a
    line feed. *)
Theorem unchanged_names (s : string) :
  ((∀ a b, s ≠ a +:+ "." +:+ b) → Re.sub_numbering s = s) ∧
  (∀ t c, s = t +:+ String c EmptyString →
          Re.is_digit c = false → c ≠ Re.LF → Re.sub_numbering s = s).
Proof.
  split.
  - intros Hdot. apply search_false_fixed, search_spec.
    intros u ds tail (E & _). by apply (Hdot u (ds +:+ tail)).
  - intros t c -> Hc Hlf. apply search_false_fixed, search_spec.
    intros u ds tail (E & Hne & Hds & Htail).
    destruct Htail as [-> | ->].
    + destruct (digits_snoc ds Hne Hds) as (ds' & d & -> & Hd).
      rewrite append_empty_r in E.
      change (u +:+ "." +:+ ds' +:+ String d EmptyString)
        with (u +:+ ("." +:+ ds') +:+ String d EmptyString) in E.
      rewrite <- !append_assoc in E. apply snoc_inj in E. congruence.
    + unfold newline in E.
      change (u +:+ "." +:+ ds +:+ String Re.LF EmptyString)
        with (u +:+ ("." +:+ ds) +:+ String Re.LF EmptyString) in E.
      rewrite <- !append_assoc in E. apply snoc_inj in E. congruence.
Qed.

Lemma unchanged_names_witness :
  Re.sub_numbering "Custom field (v1.2)" = "Custom field (v1.2)"%string.
Proof.
  apply (proj2 (unchanged_names "Custom field (v1.2)")
           "Custom field (v1.2" ")"%char); [reflexivity | reflexivity |].
  discriminate.
Defined.

(** ** Generated labels *)

(** X11: the labels generated for one base name are pairwise distinct,
    so a label can only be generated twice by two different base
    names. *)
Theorem instance_labels_distinct (col : string) (k : nat) :
  NoDup (expected_labels_of col k) ∧
  (∀ i j, instance_label col i = instance_label col j → i = j).
Proof.
  assert (∀ i j, instance_label col i = instance_label col j → i = j) as Hinj.
  { intros i j H. unfold instance_label in H.
    apply append_inj_l in H. simpl in H. inversion H as [H'].
    apply str_inj in H'. lia. }
  split; [|exact Hinj]. unfold expected_labels_of. case_decide.
  - apply NoDup_singleton.
  - apply NoDup_fmap_2_strong; [|apply NoDup_seq].
    intros i j _ _. apply Hinj.
Qed.

(** ** File names *)

Section Paths.
Import Os.

Lemma rfind_from_app c s1 s2 : ∀ i last,
  rfind_from c (s1 +:+ s2) i last
  = rfind_from c s2 (i + Z.of_nat (String.length s1)) (rfind_from c s1 i last).
Proof.
  induction s1 as [|x s1 IH]; intros i last.
  - rewrite append_nil_l. simpl. by rewrite Z.add_0_r.
  - rewrite append_cons. cbn [rfind_from String.length]. rewrite IH.
    f_equal. lia.
Qed.

Lemma rfind_from_absent c s : ∀ i last,
  all_chars (λ x, negb (Ascii.eqb x c)) s = true → rfind_from c s i last = last.
Proof.
  induction s as [|x s IH]; intros i last H; [done|].
  cbn [all_chars] in H. apply andb_true_iff in H as [Hx Hs].
  cbn [rfind_from]. apply negb_true_iff in Hx. rewrite Hx. by apply IH.
Qed.

Lemma rfind_from_range c s : ∀ i last,
  (last < i)%Z →
  (last ≤ rfind_from c s i last < i + Z.of_nat (String.length s))%Z.
Proof.
  induction s as [|x s IH]; intros i last Hlt.
  - simpl. lia.
  - cbn [rfind_from String.length].
    destruct (Ascii.eqb x c).
    + pose proof (IH (i + 1)%Z i ltac:(lia)). lia.
    + pose proof (IH (i + 1)%Z last ltac:(lia)). lia.
Qed.

Lemma rfind_range c s : (-1 ≤ rfind c s < Z.of_nat (String.length s))%Z.
Proof. apply (rfind_from_range c s 0 (-1)). lia. Qed.

Lemma rfind_app_absent c s1 s2 :
  all_chars (λ x, negb (Ascii.eqb x c)) s2 = true →
  rfind c (s1 +:+ s2) = rfind c s1.
Proof. intros H. unfold rfind. rewrite rfind_from_app. by apply rfind_from_absent. Qed.

Lemma rfind_snoc c s : rfind c (s +:+ String c EmptyString) = Z.of_nat (String.length s).
Proof.
  unfold rfind. rewrite rfind_from_app. cbn [rfind_from].
  by rewrite Ascii.eqb_refl.
Qed.

Lemma all_chars_app P s1 s2 :
  all_chars P (s1 +:+ s2) = all_chars P s1 && all_chars P s2.
Proof.
  induction s1 as [|x s1 IH]; [done|].
  rewrite append_cons. cbn [all_chars]. rewrite IH. by rewrite andb_assoc.
Qed.

Lemma all_chars_impl (P Q : ascii → bool) s :
  (∀ x, P x = true → Q x = true) → all_chars P s = true → all_chars Q s = true.
Proof.
  intros HPQ. induction s as [|x s IH]; [done|]. cbn [all_chars].
  intros [Hx Hs]%andb_true_iff. rewrite (HPQ x Hx). by apply IH.
Qed.

Lemma substring_prefix a b :
  String.substring 0 (String.length a) (a +:+ b) = a.
Proof.
  induction a as [|x a IH]; [by destruct b|].
  rewrite append_cons. cbn [String.length String.substring]. by rewrite IH.
Qed.

Lemma substring_skip a b n m :
  String.substring (String.length a + n) m (a +:+ b) = String.substring n m b.
Proof.
  induction a as [|x a IH]; [done|].
  rewrite append_cons. cbn [String.length Nat.add String.substring]. exact IH.
Qed.

Lemma substring_whole b n :
  String.length b ≤ n → String.substring 0 n b = b.
Proof.
  revert n. induction b as [|x b IH]; intros n Hn; [by destruct n|].
  destruct n as [|n]; [simpl in Hn; lia|].
  cbn [String.substring]. rewrite IH; [done | simpl in Hn; lia].
Qed.

Lemma slice_prefix a b :
  slice (a +:+ b) 0 (Z.of_nat (String.length a)) = a.
Proof.
  unfold slice. rewrite Z.sub_0_r, Nat2Z.id. apply substring_prefix.
Qed.

Lemma slice_suffix a b :
  slice (a +:+ b) (Z.of_nat (String.length a))
        (Z.of_nat (String.length (a +:+ b))) = b.
Proof.
  unfold slice. rewrite Nat2Z.id, length_append.
  replace (Z.to_nat (Z.of_nat (String.length a + String.length b)
                     - Z.of_nat (String.length a)))
    with (String.length b) by lia.
  rewrite <- (Nat.add_0_r (String.length a)) at 1.
  rewrite substring_skip. by apply substring_whole.
Qed.

Lemma slice_char a c b :
  slice (a +:+ String c b) (Z.of_nat (String.length a))
        (Z.of_nat (String.length a) + 1)
  = String c EmptyString.
Proof.
  unfold slice. rewrite Nat2Z.id.
  replace (Z.to_nat (Z.of_nat (String.length a) + 1 - Z.of_nat (String.length a)))
    with 1 by lia.
  rewrite <- (Nat.add_0_r (String.length a)) at 1.
  rewrite substring_skip. by destruct b.
Qed.

Lemma skip_leading_dots_found p dotIndex indices i c :
  i ∈ indices → slice p i (i + 1) = String c EmptyString → is_dot c = false →
  skip_leading_dots p dotIndex indices
  = Some (slice p 0 dotIndex, slice p dotIndex (Z.of_nat (String.length p))).
Proof.
  intros Hi Hc Hdot. induction indices as [|j rest IH];
    [by apply elem_of_nil in Hi|].
  cbn [skip_leading_dots].
  destruct (String.eqb (slice p j (j + 1)) ".") eqn:E; [|done].
  apply elem_of_cons in Hi as [->|Hi]; [|by apply IH].
  rewrite Hc in E. apply String.eqb_eq in E. inversion E; subst c. done.
Qed.

Lemma skip_leading_dots_all p dotIndex indices :
  (∀ i, i ∈ indices → slice p i (i + 1) = ".") →
  skip_leading_dots p dotIndex indices = None.
Proof.
  induction indices as [|j rest IH]; intros Hall; [done|].
  cbn [skip_leading_dots]. rewrite (Hall j) by left.
  rewrite String.eqb_refl. apply IH. intros i Hi. apply Hall. by right.
Qed.

Lemma sep_absent os_path c s :
  all_chars (λ x, negb (is_sep os_path x)) s = true →
  is_sep os_path c = true →
  all_chars (λ x, negb (Ascii.eqb x c)) s = true.
Proof.
  intros Hs Hc. eapply all_chars_impl; [|exact Hs]. intros x Hx.
  apply negb_true_iff in Hx. apply negb_true_iff.
  destruct (Ascii.eqb x c) eqn:E; [|done].
  apply Ascii.eqb_eq in E. congruence.
Qed.

Lemma is_sep_sep os_path : is_sep os_path (sep os_path) = true.
Proof. unfold is_sep. by rewrite Ascii.eqb_refl. Qed.

Lemma is_sep_altsep os_path a : altsep os_path = Some a → is_sep os_path a = true.
Proof. intros H. unfold is_sep. rewrite H, Ascii.eqb_refl. apply orb_true_r. Qed.

(** The index [sepIndex] computed by [splitext]. *)
Lemma sep_index_app os_path s1 s2 :
  all_chars (λ x, negb (is_sep os_path x)) s2 = true →
  match altsep os_path with
  | Some a => Z.max (rfind (sep os_path) (s1 +:+ s2)) (rfind a (s1 +:+ s2))
  | None => rfind (sep os_path) (s1 +:+ s2)
  end
  = match altsep os_path with
    | Some a => Z.max (rfind (sep os_path) s1) (rfind a s1)
    | None => rfind (sep os_path) s1
    end.
Proof.
  intros Hs.
  rewrite (rfind_app_absent (sep os_path))
    by (eapply sep_absent; [exact Hs | apply is_sep_sep]).
  destruct (altsep os_path) as [a|] eqn:E; [|done].
  rewrite (rfind_app_absent a); [done|].
  eapply sep_absent; [exact Hs | by apply is_sep_altsep].
Qed.

Lemma sep_index_range os_path s :
  (-1 ≤ match altsep os_path with
        | Some a => Z.max (rfind (sep os_path) s) (rfind a s)
        | None => rfind (sep os_path) s
        end < Z.of_nat (String.length s))%Z.
Proof.
  pose proof (rfind_range (sep os_path) s).
  destruct (altsep os_path) as [a|]; [|done].
  pose proof (rfind_range a s). lia.
Qed.

Lemma sep_index_snoc os_path d c :
  is_sep os_path c = true →
  match altsep os_path with
  | Some a => Z.max (rfind (sep os_path) (d +:+ String c EmptyString))
                    (rfind a (d +:+ String c EmptyString))
  | None => rfind (sep os_path) (d +:+ String c EmptyString)
  end = Z.of_nat (String.length d).
Proof.
  intros Hc. unfold is_sep in Hc.
  pose proof (rfind_range (sep os_path) (d +:+ String c EmptyString)) as Hr1.
  rewrite length_append in Hr1. simpl in Hr1.
  destruct (altsep os_path) as [a|].
  - pose proof (rfind_range a (d +:+ String c EmptyString)) as Hr2.
    rewrite length_append in Hr2. simpl in Hr2.
    apply orb_true_iff in Hc as [Hc|Hc]; apply Ascii.eqb_eq in Hc; subst c.
    + rewrite rfind_snoc. lia.
    + rewrite (rfind_snoc a). lia.
  - rewrite orb_false_r in Hc. apply Ascii.eqb_eq in Hc. subst c.
    apply rfind_snoc.
Qed.

Lemma lower_dot e : lower ("." +:+ e) = "." +:+ lower e.
Proof. reflexivity. Qed.

Lemma not_sep_not_dot os_path e :
  all_chars (λ x, negb (is_sep os_path x) && negb (is_dot x)) e = true →
  all_chars (λ x, negb (is_sep os_path x)) e = true ∧
  all_chars (λ x, negb (Ascii.eqb x ".")) e = true.
Proof.
  intros H. split; (eapply all_chars_impl; [|exact H]); intros x Hx;
    by apply andb_true_iff in Hx as [? ?].
Qed.

(** A file name with a character other than a dot before its last dot:
    the extension starts at that last dot. *)
Lemma splitext_regular os_path a c b e :
  is_sep os_path "." = false →
  is_sep os_path c = false → is_dot c = false →
  all_chars (λ x, negb (is_sep os_path x)) b = true →
  all_chars (λ x, negb (is_sep os_path x) && negb (is_dot x)) e = true →
  splitext os_path (a +:+ String c b +:+ "." +:+ e)
  = (a +:+ String c b, "." +:+ e).
Proof.
  intros Hdotsep Hc Hcd Hb He.
  destruct (not_sep_not_dot _ _ He) as [Hes Hed].
  unfold splitext.
  assert (all_chars (λ x, negb (is_sep os_path x)) (String c b +:+ "." +:+ e)
          = true) as Htail.
  { rewrite append_cons. cbn [all_chars]. rewrite Hc. simpl.
    rewrite all_chars_app, Hb. simpl. by rewrite Hdotsep. }
  rewrite (sep_index_app os_path a _ Htail).
  pose proof (sep_index_range os_path a) as Hsep.
  set (sepIndex := match altsep os_path with
                   | Some a0 => Z.max (rfind (sep os_path) a) (rfind a0 a)
                   | None => rfind (sep os_path) a
                   end) in *.
  assert (rfind "." (a +:+ String c b +:+ "." +:+ e)
          = Z.of_nat (String.length (a +:+ String c b))) as Hdot.
  { rewrite <- (append_assoc a (String c b) ("." +:+ e)).
    change ("." +:+ e) with (String "." EmptyString +:+ e).
    rewrite <- (append_assoc (a +:+ String c b) (String "." EmptyString) e).
    rewrite (rfind_app_absent "." _ e Hed). apply rfind_snoc. }
  rewrite Hdot. rewrite length_append. cbn [String.length].
  assert ((sepIndex <? Z.of_nat (String.length a + S (String.length b)))%Z
          = true) as -> by (apply Z.ltb_lt; lia).
  rewrite (skip_leading_dots_found _ _ _ (Z.of_nat (String.length a)) c).
  - rewrite <- (append_assoc a (String c b) ("." +:+ e)).
    replace (Z.of_nat (String.length a + S (String.length b)))
      with (Z.of_nat (String.length (a +:+ String c b)))
      by (rewrite length_append; simpl; lia).
    by rewrite slice_prefix, slice_suffix.
  - apply elem_of_seqZ. lia.
  - apply slice_char.
  - exact Hcd.
Qed.

Lemma rfind_from_all c s : ∀ i last,
  all_chars (λ x, Ascii.eqb x c) s = true → s ≠ EmptyString →
  rfind_from c s i last = (i + Z.of_nat (String.length s) - 1)%Z.
Proof.
  induction s as [|x s IH]; intros i last Hall Hne; [done|].
  cbn [all_chars] in Hall. apply andb_true_iff in Hall as [Hx Hs].
  cbn [rfind_from String.length]. rewrite Hx.
  destruct s as [|y s]; [simpl; lia|].
  rewrite IH by done. cbn [String.length]. lia.
Qed.

Lemma substring_in_dots dots rest : ∀ j,
  all_chars is_dot dots = true → j < String.length dots →
  String.substring j 1 (dots +:+ rest) = ".".
Proof.
  induction dots as [|x dots IH]; intros j Hall Hj; [simpl in Hj; lia|].
  cbn [all_chars] in Hall. apply andb_true_iff in Hall as [Hx Hs].
  apply Ascii.eqb_eq in Hx. subst x. rewrite append_cons.
  destruct j as [|j].
  - cbn [String.substring]. by destruct (dots +:+ rest).
  - cbn [String.substring]. apply IH; [done | simpl in Hj; lia].
Qed.

(** A file name made of leading dots and a part without dot: no
    extension. *)
Lemma splitext_no_extension os_path d dots rest :
  is_sep os_path "." = false →
  (d = EmptyString ∨
   ∃ d' s, d = d' +:+ String s EmptyString ∧ is_sep os_path s = true) →
  all_chars is_dot dots = true →
  all_chars (λ x, negb (is_sep os_path x) && negb (is_dot x)) rest = true →
  splitext os_path (d +:+ dots +:+ rest) = (d +:+ dots +:+ rest, EmptyString).
Proof.
  intros Hdotsep Hd Hdots Hrest.
  destruct (not_sep_not_dot _ _ Hrest) as [Hrs Hrd].
  assert (all_chars (λ x, negb (is_sep os_path x)) dots = true) as Hds.
  { eapply all_chars_impl; [|exact Hdots]. intros x Hx.
    apply Ascii.eqb_eq in Hx. subst x. by rewrite Hdotsep. }
  unfold splitext.
  rewrite (sep_index_app os_path d (dots +:+ rest))
    by (by rewrite all_chars_app, Hds, Hrs).
  assert (match altsep os_path with
          | Some a => Z.max (rfind (sep os_path) d) (rfind a d)
          | None => rfind (sep os_path) d
          end = (Z.of_nat (String.length d) - 1)%Z) as ->.
  { destruct Hd as [->|(d' & s & -> & Hs)].
    - by destruct (altsep os_path).
    - rewrite (sep_index_snoc _ _ _ Hs), length_append. simpl. lia. }
  rewrite <- (append_assoc d dots rest), (rfind_app_absent "." _ rest Hrd).
  destruct dots as [|x dots].
  - rewrite append_empty_r. pose proof (rfind_range "." d) as Hr.
    assert ((Z.of_nat (String.length d) - 1 <? rfind "." d)%Z = false) as ->
      by (apply Z.ltb_ge; lia).
    done.
  - assert (rfind "." (d +:+ String x dots)
            = (Z.of_nat (String.length d)
               + Z.of_nat (S (String.length dots)) - 1)%Z) as ->.
    { unfold rfind. rewrite rfind_from_app.
      rewrite (rfind_from_all "." (String x dots)) by done.
      cbn [String.length]. lia. }
    assert ((Z.of_nat (String.length d) - 1
             <? Z.of_nat (String.length d)
                + Z.of_nat (S (String.length dots)) - 1)%Z = true) as ->
      by (apply Z.ltb_lt; lia).
    rewrite skip_leading_dots_all; [done|].
    intros i Hi. apply elem_of_seqZ in Hi. unfold slice.
    replace (Z.to_nat (i + 1 - i)) with 1 by lia.
    replace (Z.to_nat i)
      with (String.length d + (Z.to_nat i - String.length d)) by lia.
    rewrite append_assoc, substring_skip.
    apply substring_in_dots; [done|]. cbn [String.length]. lia.
Qed.

End Paths.

(** X12: for a path whose file name has a character other than a dot
    before its last dot, [read_file] and [save_file] go by what follows
    that last dot, upper or lower case alike: [csv] selects the CSV reader
    and writer, [xlsx] the Excel ones, and anything else raises the
    "Unsupported file format" [ValueError], naming the lower-cased
    extension, without calling pandas. *)
Theorem format_by_extension (os_path : Os.flavour)
    (pd_read_csv pd_read_excel : string → Script.attempt DataFrame)
    (to_csv to_excel : DataFrame → string → Script.attempt unit)
    (a : string) (c : ascii) (b e : string) (df : DataFrame) :
  Os.is_sep os_path "." = false →
  Os.is_sep os_path c = false → Os.is_dot c = false →
  Os.all_chars (λ x, negb (Os.is_sep os_path x)) b = true →
  Os.all_chars (λ x, negb (Os.is_sep os_path x) && negb (Os.is_dot x)) e = true →
  let file_path := a +:+ String c b +:+ "." +:+ e in
  (Os.lower e = "csv"%string →
   Script.read_file os_path pd_read_csv pd_read_excel file_path
   = pd_read_csv file_path ∧
   Script.save_file os_path to_csv to_excel df file_path = to_csv df file_path) ∧
  (Os.lower e = "xlsx"%string →
   Script.read_file os_path pd_read_csv pd_read_excel file_path
   = pd_read_excel file_path ∧
   Script.save_file os_path to_csv to_excel df file_path = to_excel df file_path) ∧
  (Os.lower e ≠ "csv"%string → Os.lower e ≠ "xlsx"%string →
   Script.read_file os_path pd_read_csv pd_read_excel file_path
   = Script.Raised (Script.unsupported ("." +:+ Os.lower e)) ∧
   Script.save_file os_path to_csv to_excel df file_path
   = Script.Raised (Script.unsupported ("." +:+ Os.lower e))).
Proof.
  intros Hdotsep Hc Hcd Hb He file_path.
  assert (Script.file_extension_of os_path file_path = String "." (Os.lower e))
    as Hext.
  { unfold Script.file_extension_of, file_path.
    by rewrite (splitext_regular os_path a c b e). }
  unfold Script.read_file, Script.save_file. rewrite Hext.
  change ("." +:+ Os.lower e) with (String "." (Os.lower e)).
  split; [|split].
  - intros ->. by repeat case_decide.
  - intros ->. by repeat case_decide.
  - intros Hcsv Hxlsx. repeat case_decide; simplify_eq; done.
Qed.

Lemma format_by_extension_witness :
  Script.read_file Os.ntpath
    (λ _, Script.Returned (mkFrame 0 []))
    (λ _, Script.Raised (Script.mkExn false "excel"))
    "C:\exports\Report 2024.final.CSV"
  = Script.Returned (mkFrame 0 []).
Proof.
  refine (proj1 (proj1 (format_by_extension Os.ntpath
                          (λ _, Script.Returned (mkFrame 0 []))
                          (λ _, Script.Raised (Script.mkExn false "excel"))
                          (λ _ _, Script.Returned tt) (λ _ _, Script.Returned tt)
                          "C:\exports\" "R" "eport 2024.final" "CSV"
                          (mkFrame 0 []) _ _ _ _ _) _)); reflexivity.
Defined.

(** X13: a path whose file name has no dot, or only leading dots before
    a part without dot (such as [.csv] or [data/.xlsx]), has no
    extension: [read_file] and [save_file] raise the "Unsupported file
    format" [ValueError] with an empty extension. *)
Theorem no_extension_rejected (os_path : Os.flavour)
    (pd_read_csv pd_read_excel : string → Script.attempt DataFrame)
    (to_csv to_excel : DataFrame → string → Script.attempt unit)
    (d dots rest : string) (df : DataFrame) :
  Os.is_sep os_path "." = false →
  (d = EmptyString ∨
   ∃ d' s, d = d' +:+ String s EmptyString ∧ Os.is_sep os_path s = true) →
  Os.all_chars Os.is_dot dots = true →
  Os.all_chars (λ x, negb (Os.is_sep os_path x) && negb (Os.is_dot x)) rest
  = true →
  Script.read_file os_path pd_read_csv pd_read_excel (d +:+ dots +:+ rest)
  = Script.Raised (Script.unsupported EmptyString) ∧
  Script.save_file os_path to_csv to_excel df (d +:+ dots +:+ rest)
  = Script.Raised (Script.unsupported EmptyString).
Proof.
  intros Hdotsep Hd Hdots Hrest.
  unfold Script.read_file, Script.save_file, Script.file_extension_of.
  by rewrite (splitext_no_extension os_path d dots rest).
Qed.

Lemma no_extension_rejected_witness :
  Script.read_file Os.posixpath
    (λ _, Script.Returned (mkFrame 0 [])) (λ _, Script.Returned (mkFrame 0 []))
    "data/.csv"
  = Script.Raised (Script.unsupported EmptyString).
Proof.
  refine (proj1 (no_extension_rejected Os.posixpath
                   (λ _, Script.Returned (mkFrame 0 []))
                   (λ _, Script.Returned (mkFrame 0 []))
                   (λ _ _, Script.Returned tt) (λ _ _, Script.Returned tt)
                   "data/" "." "csv" (mkFrame 0 []) _ _ _ _));
    try reflexivity.
  right. by exists "data"%string, "/"%char.
Defined.

(** ** The run as a whole *)

Lemma standardized_ok_iff (base_df new_df df : DataFrame) :
  standardized (standardize_data base_df new_df) = Ok df ↔
  (∀ c, c ∈ labels base_df → occurrences c (labels new_df) ≤ 1) ∧
  df = renamed (apply_assignments Pd.empty_frame (plan (labels base_df) new_df)).
Proof.
  split.
  - intros H. destruct (build_of_standardized _ _ _ H) as (Hone & _ & ->).
    split; [|done]. by apply Forall_forall.
  - intros [Hone ->]. apply standardized_of_build, build_standardized_plan.
    by apply Forall_forall.
Qed.

(** X14: a run overwrites a file exactly when both files were read, no
    base name labels two columns of the target, and the writer selected
    by the extension of the target returned; the file overwritten is then
    the target, never the base, and what is written is the reconciled
    table under normalized labels.  In every other case nothing is
    written. *)
Theorem overwrite_condition (os_path : Os.flavour)
    (pd_read_csv pd_read_excel : string → Script.attempt DataFrame)
    (to_csv to_excel : DataFrame → string → Script.attempt unit)
    (describe : exn → string) (base_file new_file p : string)
    (df : DataFrame) :
  Script.saved
    (Script.standardize_files os_path pd_read_csv pd_read_excel to_csv to_excel
                              describe base_file new_file) = Some (p, df)
  ↔ p = new_file ∧
    ∃ base_df new_df,
      Script.read_file os_path pd_read_csv pd_read_excel base_file
      = Script.Returned base_df ∧
      Script.read_file os_path pd_read_csv pd_read_excel new_file
      = Script.Returned new_df ∧
      (∀ c, c ∈ labels base_df → occurrences c (labels new_df) ≤ 1) ∧
      df = renamed (apply_assignments Pd.empty_frame
                      (plan (labels base_df) new_df)) ∧
      Script.save_file os_path to_csv to_excel df new_file
      = Script.Returned tt.
Proof.
  unfold Script.standardize_files. split.
  - destruct (Script.read_file _ _ _ base_file) as [base_df|e]; [|done].
    destruct (Script.read_file _ _ _ new_file) as [new_df|e]; [|done].
    destruct (standardized (standardize_data base_df new_df))
      as [sdf|e] eqn:Hs; [|done].
    destruct (Script.save_file _ _ _ sdf new_file) as [[]|e] eqn:Hw.
    + intros [= <- <-]. split; [done|]. exists base_df, new_df.
      apply standardized_ok_iff in Hs as [Hone Hdf]. by rewrite <- Hdf.
    + by destruct (Script.is_permission_error e).
  - intros (-> & base_df & new_df & -> & -> & Hone & Hdf & Hw).
    assert (standardized (standardize_data base_df new_df) = Ok df) as ->
      by by apply standardized_ok_iff.
    by rewrite Hw.
Qed.

Lemma overwrite_condition_witness :
  Script.saved
    (Script.standardize_files Os.posixpath
       (λ path, if decide (path = "base.csv"%string)
                then Script.Returned (frame_of 0 [("A", []); ("B", [])]%string)
                else Script.Returned (frame_of 1 [("B", ["b"]); ("A", ["a"])]%string))
       (λ _, Script.Raised (Script.mkExn false "no excel"))
       (λ _ _, Script.Returned tt) (λ _ _, Script.Returned tt)
       (λ _, "error"%string) "base.csv" "new.csv")
  = Some ("new.csv"%string,
          mkFrame 1 [("A", [Value "a"]); ("B", [Value "b"])]%string).
Proof.
  apply overwrite_condition. split; [reflexivity|].
  exists (frame_of 0 [("A", []); ("B", [])]%string),
         (frame_of 1 [("B", ["b"]); ("A", ["a"])]%string).
  split; [reflexivity|]. split; [reflexivity|]. split; [|split; reflexivity].
  intros c Hc.
  repeat (apply elem_of_cons in Hc as [->|Hc]; [vm_compute; lia|]).
  by apply elem_of_nil in Hc.
Defined.

Lemma success_line_absent (success : string) (lines : list string) :
  String.prefix "F" success = true →
  Forall (λ l, String.prefix "F" l = false) lines → success ∉ lines.
Proof.
  intros Hs Hl Hin. pose proof (proj1 (Forall_forall _ _) Hl _ Hin). congruence.
Qed.

Lemma warning_lines_not_F missing :
  Forall (λ l, String.prefix "F" l = false) (Script.warning_lines missing).
Proof.
  unfold Script.warning_lines. destruct missing as [|m missing]; [constructor|].
  apply Forall_app. split; [by repeat constructor|].
  apply Forall_app. split; [|by repeat constructor].
  apply Forall_fmap, Forall_true. intros x. reflexivity.
Qed.

Lemma handled_not_F e out :
  Forall (λ l, String.prefix "F" l = false) out →
  Forall (λ l, String.prefix "F" l = false)
         (Script.printed (Script.handled e out)).
Proof.
  intros Hout. unfold Script.handled. simpl.
  apply Forall_app. split; [done|]. constructor; [reflexivity|].
  destruct (Script.contains _ _); by repeat constructor.
Qed.

(** X15: the line "File ... has been standardized successfully!" is
    printed exactly when the target file was written; and a run that
    writes nothing always prints why: either the line "An error
    occurred: ..." or the line "ERROR: Could not save the file ...". *)
Theorem messages_are_truthful (os_path : Os.flavour)
    (pd_read_csv pd_read_excel : string → Script.attempt DataFrame)
    (to_csv to_excel : DataFrame → string → Script.attempt unit)
    (describe : exn → string) (base_file new_file : string) :
  let r := Script.standardize_files os_path pd_read_csv pd_read_excel
             to_csv to_excel describe base_file new_file in
  (("File " +:+ new_file +:+ " has been standardized successfully!")
     ∈ Script.printed r
   ↔ ∃ df, Script.saved r = Some (new_file, df)) ∧
  (Script.saved r = None →
   ∃ line, line ∈ Script.printed r ∧
     ((∃ msg, line = "An error occurred: " +:+ msg) ∨
      line = String Re.LF ("ERROR: Could not save the file '"
                           +:+ new_file +:+ "'."))).
Proof.
  cbv zeta. unfold Script.standardize_files.
  assert (String.prefix "F" ("File " +:+ new_file
                             +:+ " has been standardized successfully!") = true)
    as HF by reflexivity.
  assert (∀ e out,
            Forall (λ l, String.prefix "F" l = false) out →
            (("File " +:+ new_file +:+ " has been standardized successfully!")
               ∈ Script.printed (Script.handled e out)
             ↔ ∃ df, Script.saved (Script.handled e out) = Some (new_file, df)) ∧
            (Script.saved (Script.handled e out) = None →
             ∃ line, line ∈ Script.printed (Script.handled e out) ∧
               ((∃ msg, line = "An error occurred: " +:+ msg) ∨
                line = String Re.LF ("ERROR: Could not save the file '"
                                     +:+ new_file +:+ "'.")))) as Hhandled.
  { intros e out Hout. split.
    - split; [|by intros [df ?]].
      intros Hin. exfalso. revert Hin.
      by apply success_line_absent, handled_not_F.
    - intros _. exists ("An error occurred: " +:+ Script.text e). split.
      + unfold Script.handled. simpl. apply elem_of_app. right. left.
      + left. by exists (Script.text e). }
  destruct (Script.read_file _ _ _ base_file) as [base_df|e];
    [|by apply Hhandled].
  destruct (Script.read_file _ _ _ new_file) as [new_df|e];
    [|by apply Hhandled].
  pose proof (warning_lines_not_F
                (missing_instances (standardize_data base_df new_df))) as Hw.
  destruct (standardized (standardize_data base_df new_df)) as [sdf|e];
    [|by apply Hhandled].
  destruct (Script.save_file _ _ _ sdf new_file) as [[]|e].
  - simpl. split; [|done]. split; [intros _; by exists sdf|].
    intros _. apply elem_of_app. right. left.
  - destruct (Script.is_permission_error e); [|by apply Hhandled].
    simpl. split.
    + split; [|by intros [df ?]].
      intros Hin. exfalso. revert Hin. apply success_line_absent; [done|].
      apply Forall_app. split; [done|]. by repeat constructor.
    + intros _. eexists. split; [|right; reflexivity].
      apply elem_of_app. right. left.
Qed.

Lemma messages_are_truthful_witness :
  ∃ line,
    line ∈ Script.printed
             (Script.standardize_files Os.posixpath
                (λ _, Script.Raised (Script.mkExn true "Permission denied"))
                (λ _, Script.Raised (Script.mkExn false "no excel"))
                (λ _ _, Script.Returned tt) (λ _ _, Script.Returned tt)
                (λ _, "error"%string) "base.csv" "new.csv") ∧
    ((∃ msg, line = "An error occurred: " +:+ msg) ∨
     line = String Re.LF ("ERROR: Could not save the file '"
                          +:+ "new.csv" +:+ "'.")).
Proof.
  apply (proj2 (messages_are_truthful Os.posixpath
                  (λ _, Script.Raised (Script.mkExn true "Permission denied"))
                  (λ _, Script.Raised (Script.mkExn false "no excel"))
                  (λ _ _, Script.Returned tt) (λ _ _, Script.Returned tt)
                  (λ _, "error"%string) "base.csv" "new.csv")).
  reflexivity.
Defined.

Lemma line_absent (p line : string) (lines : list string) :
  String.prefix p line = true →
  Forall (λ l, String.prefix p l = false) lines → line ∉ lines.
Proof.
  intros Hs Hl Hin. pose proof (proj1 (Forall_forall _ _) Hl _ Hin). congruence.
Qed.

Lemma warning_header_handled line e out :
  String.prefix "W" line = true →
  line ∈ Script.printed (Script.handled e out) ↔ line ∈ out.
Proof.
  intros HW. unfold Script.handled. simpl. rewrite elem_of_app.
  split; [|by left]. intros [?|Hin]; [done|]. exfalso. revert Hin.
  apply (line_absent "W"); [done|]. constructor; [reflexivity|].
  destruct (Script.contains _ _); by repeat constructor.
Qed.

Lemma warning_header_out line out rest :
  String.prefix "W" line = true →
  Forall (λ l, String.prefix "W" l = false) rest →
  line ∈ out ++ rest ↔ line ∈ out.
Proof.
  intros HW Hrest. rewrite elem_of_app. split; [|by left].
  intros [?|Hin]; [done|]. exfalso. revert Hin. by apply (line_absent "W").
Qed.

Lemma warning_header_printed missing :
  "WARNING: The following columns have insufficient instances in the new file:"%string
    ∈ Script.warning_lines missing ↔ missing ≠ [].
Proof.
  unfold Script.warning_lines. destruct missing as [|m missing].
  - split; [|done]. intros H. by apply elem_of_nil in H.
  - split; [done|]. intros _. left.
Qed.

Lemma warning_detail_printed missing c k j :
  (c, k, j) ∈ missing →
  ("- " +:+ c +:+ ": Required " +:+ str k +:+ " instances, found "
        +:+ str j +:+ " instances") ∈ Script.warning_lines missing.
Proof.
  intros Hin. unfold Script.warning_lines.
  destruct missing as [|m missing]; [by apply elem_of_nil in Hin|].
  apply elem_of_app. right. apply elem_of_app. left.
  apply list_elem_of_fmap. by exists (c, k, j).
Qed.

(** X16: the warning about insufficient instances is printed exactly when
    both files were read and some base name labels fewer columns in the
    target than in the base, whatever happens to the run afterwards
    (written, refused by the writer, or aborted); and then there is, for
    every such name, a line that gives the name, its count in the base
    and its count in the target. *)
Theorem warning_condition (os_path : Os.flavour)
    (pd_read_csv pd_read_excel : string → Script.attempt DataFrame)
    (to_csv to_excel : DataFrame → string → Script.attempt unit)
    (describe : exn → string) (base_file new_file : string) :
  let r := Script.standardize_files os_path pd_read_csv pd_read_excel
             to_csv to_excel describe base_file new_file in
  ("WARNING: The following columns have insufficient instances in the new file:"%string
     ∈ Script.printed r
   ↔ ∃ base_df new_df,
       Script.read_file os_path pd_read_csv pd_read_excel base_file
       = Script.Returned base_df ∧
       Script.read_file os_path pd_read_csv pd_read_excel new_file
       = Script.Returned new_df ∧
       ∃ c, c ∈ labels base_df ∧
            occurrences c (labels new_df) < occurrences c (labels base_df)) ∧
  (∀ base_df new_df c,
     Script.read_file os_path pd_read_csv pd_read_excel base_file
     = Script.Returned base_df →
     Script.read_file os_path pd_read_csv pd_read_excel new_file
     = Script.Returned new_df →
     c ∈ labels base_df →
     occurrences c (labels new_df) < occurrences c (labels base_df) →
     ("- " +:+ c +:+ ": Required " +:+ str (occurrences c (labels base_df))
           +:+ " instances, found " +:+ str (occurrences c (labels new_df))
           +:+ " instances") ∈ Script.printed r).
Proof.
  cbv zeta. unfold Script.standardize_files.
  destruct (Script.read_file _ _ _ base_file) as [base_df|e].
  2:{ split; [|done]. rewrite warning_header_handled by done. split.
      - intros H. by apply elem_of_nil in H.
      - by intros (? & ? & ? & _). }
  destruct (Script.read_file _ _ _ new_file) as [new_df|e].
  2:{ split; [|done]. rewrite warning_header_handled by done. split.
      - intros H. by apply elem_of_nil in H.
      - by intros (? & ? & _ & ? & _). }
  set (missing := missing_instances (standardize_data base_df new_df)).
  assert (∀ c k j, (c, k, j) ∈ missing ↔
            c ∈ labels base_df ∧ k = occurrences c (labels base_df) ∧
            j = occurrences c (labels new_df) ∧ j < k) as Hmissing
    by (intros c k j; apply missing_instances_spec).
  assert (missing ≠ [] ↔
          ∃ base_df' new_df',
            Script.Returned base_df = Script.Returned base_df' ∧
            Script.Returned new_df = Script.Returned new_df' ∧
            ∃ c, c ∈ labels base_df' ∧
                 occurrences c (labels new_df')
                 < occurrences c (labels base_df')) as Hshort.
  { split.
    - intros Hne. exists base_df, new_df. split; [done|]. split; [done|].
      destruct missing as [|[[c k] j] rest]; [done|].
      destruct (proj1 (Hmissing c k j)) as (Hc & -> & -> & Hlt); [left|].
      by exists c.
    - intros (? & ? & [= <-] & [= <-] & c & Hc & Hlt) Hnil.
      assert ((c, occurrences c (labels base_df),
               occurrences c (labels new_df)) ∈ missing) as Hin
        by by apply Hmissing.
      rewrite Hnil in Hin. by apply elem_of_nil in Hin. }
  assert (∀ tail,
            (∀ base_df' new_df' c,
               Script.Returned base_df = Script.Returned base_df' →
               Script.Returned new_df = Script.Returned new_df' →
               c ∈ labels base_df' →
               occurrences c (labels new_df') < occurrences c (labels base_df') →
               ("- " +:+ c +:+ ": Required "
                     +:+ str (occurrences c (labels base_df'))
                     +:+ " instances, found "
                     +:+ str (occurrences c (labels new_df'))
                     +:+ " instances")
                 ∈ Script.warning_lines missing ++ tail)) as Hdetail.
  { intros tail ? ? c [= <-] [= <-] Hc Hlt. apply elem_of_app. left.
    apply warning_detail_printed. by apply Hmissing. }
  rewrite <- Hshort, <- warning_header_printed.
  destruct (standardized (standardize_data base_df new_df)) as [sdf|e].
  - destruct (Script.save_file _ _ _ sdf new_file) as [[]|e].
    + split; [|apply Hdetail]. simpl.
      apply warning_header_out; [done|by repeat constructor].
    + destruct (Script.is_permission_error e).
      * split; [|apply Hdetail]. simpl.
        apply warning_header_out; [done|by repeat constructor].
      * split; [by apply warning_header_handled|].
        unfold Script.handled. simpl. apply Hdetail.
  - split; [by apply warning_header_handled|].
    unfold Script.handled. simpl. apply Hdetail.
Qed.

Lemma warning_condition_witness :
  ("- " +:+ "B" +:+ ": Required " +:+ str 2 +:+ " instances, found "
        +:+ str 1 +:+ " instances")
    ∈ Script.printed
        (Script.standardize_files Os.posixpath
           (λ path, if decide (path = "base.csv"%string)
                    then Script.Returned
                           (frame_of 0 [("A", []); ("B", []); ("B", [])]%string)
                    else Script.Returned
                           (frame_of 1 [("B", ["b"]); ("A", ["a"])]%string))
           (λ _, Script.Raised (Script.mkExn false "no excel"))
           (λ _ _, Script.Returned tt) (λ _ _, Script.Returned tt)
           (λ _, "error"%string) "base.csv" "new.csv").
Proof.
  apply (proj2 (warning_condition Os.posixpath
           (λ path, if decide (path = "base.csv"%string)
                    then Script.Returned
                           (frame_of 0 [("A", []); ("B", []); ("B", [])]%string)
                    else Script.Returned
                           (frame_of 1 [("B", ["b"]); ("A", ["a"])]%string))
           (λ _, Script.Raised (Script.mkExn false "no excel"))
           (λ _ _, Script.Returned tt) (λ _ _, Script.Returned tt)
           (λ _, "error"%string) "base.csv" "new.csv")
         (frame_of 0 [("A", []); ("B", []); ("B", [])]%string)
         (frame_of 1 [("B", ["b"]); ("A", ["a"])]%string) "B"%string).
  - reflexivity.
  - reflexivity.
  - apply (bool_decide_unpack _). by vm_compute.
  - vm_compute. lia.
Defined.
